(** * mungegithub/mungers/sync: the issue syncer

    A shallow embedding of [issue-sync.go] and the properties of [Sync].

    The syncer talks to two collaborators, the issue finder and the github
    client.  Their calls are the nodes of a small program tree ([Prog]); a
    handler gives them a meaning over some world, and [run] records every
    call together with its answer. *)

From Stdlib Require Import Ascii String HexadecimalString.
From stdpp Require Import base option list gmap sets strings pretty.

Set Warnings "-register-all".

Open Scope string_scope.
Open Scope Z_scope.
Open Scope list_scope.

(** ** The pieces of Go's [strings] and [fmt] that the file uses *)

Module strings.

(** [strings.Contains(s, substr)]: [substr] occurs in [s], byte for byte. *)
Fixpoint Contains (s substr : string) : bool :=
  if String.prefix substr s then true
  else match s with
       | EmptyString => false
       | String _ s' => Contains s' substr
       end.

End strings.

Module fmt.

(** [fmt.Sprintf] for formats whose only verb is [%v]; [args] are the
    operands already rendered.  A verb without an operand prints Go's
    [%!v(MISSING)]; the formats of this file always have as many operands
    as verbs. *)
Fixpoint Sprintf (format : string) (args : list string) : string :=
  match format with
  | EmptyString => EmptyString
  | String c rest =>
      match Ascii.eqb c "%"%char, rest with
      | true, String v rest' =>
          if Ascii.eqb v "v"%char then
            match args with
            | a :: args' => a +:+ Sprintf rest' args'
            | [] => "%!v(MISSING)" +:+ Sprintf rest' []
            end
          else String c (Sprintf rest args)
      | _, _ => String c (Sprintf rest args)
      end
  end.

(** What [%v] is given.  [Func] is a func value, as the method value
    [source.ID] is; [fmt] prints the code pointer of a func value. *)
Inductive operand (E : Type) : Type :=
| Str (s : string)
| Int (n : Z)
| Err (e : E)
| Func (name : string).
Arguments Str {E} s.
Arguments Int {E} n.
Arguments Err {E} e.
Arguments Func {E} name.

(** An [error] value: one handed over by a collaborator, or one built by
    [fmt.Errorf]. *)
Inductive error : Type :=
| IOError (msg : string)
| Errorf (format : string) (args : list (operand error)).

(** [%v] of a pointer: [0x] and lower-case hexadecimal digits, [<nil>] for
    the null pointer. *)
Definition fmtPointer (u : N) : string :=
  if N.eqb u 0 then "<nil>"
  else "0x" +:+ NilZero.string_of_uint (N.to_hex_uint u).

Section Render.
(** The code pointer of each named func value is fixed by the binary. *)
Variable codeptr : string -> N.

(** [err.Error()] *)
Fixpoint Error (e : error) : string :=
  match e with
  | IOError msg => msg
  | Errorf format args =>
      Sprintf format
        (map (fun o => match o with
                       | Str s => s
                       | Int n => pretty n
                       | Err e' => Error e'
                       | Func name => fmtPointer (codeptr name)
                       end) args)
  end.
End Render.

End fmt.
Import fmt.

(** ** Data *)

(** Modelled from the spec: [github.Issue], declared in the github client.
    The fields that are read: an issue has a number, an optional state and
    an optional body. *)
Record Issue := { Number : Z; State : option string; Body : option string }.

(** Modelled from the spec: [github.IssueComment], declared in the github
    client.  A comment has an optional body ([CommentBody] is its field
    [Body]). *)
Record IssueComment := { CommentBody : option string }.

(** Modelled from the spec: [github.MungeObject], declared in the github
    client: the handle returned for a fetched issue ([MIssue] is its field
    [Issue]). *)
Record MungeObject := { MIssue : Issue }.

(** [IssueSource]: what wishes to be synced with github issues
    ([SourceBody] is its method [Body]). *)
Record IssueSource := {
  Title : string;
  ID : string;
  SourceBody : bool -> string;
  Labels : list string
}.

(** [IssueSyncer]: [config] and [finder] are the two collaborators, reached
    through [Call]; [synced] is the only state of the syncer itself. *)
Record IssueSyncer := { synced : gset string }.

Definition NewIssueSyncer : IssueSyncer := {| synced := ∅ |}.

(** ** Collaborator calls and programs *)

(** The methods of the collaborators that the file calls, each with the
    type of its answer: [IssueFinder] is declared in the file; the methods
    of [github.Config] and [github.MungeObject] are modelled from the spec
    (section 6) and from their use. *)
Inductive Call : Type -> Type :=
(* IssueFinder *)
| AllIssuesForKey (key : string) : Call (list Z)
| Created (key : string) (number : Z) : Call unit
(* github.Config *)
| GetObject (number : Z) : Call (error + MungeObject)
| NewIssue (title body : string) (labels : list string) : Call (error + MungeObject)
(* github.MungeObject *)
| ListComments (obj : MungeObject) : Call (error + list IssueComment)
| CloseIssuef (obj : MungeObject) (msg : string) : Call (option error)
| WriteComment (obj : MungeObject) (msg : string) : Call (option error)
(* glog *)
| Infof (msg : string) : Call unit.

(** A program either returns, or asks a collaborator and goes on with the
    answer, or panics. *)
Inductive Prog (R : Type) : Type :=
| Ret (r : R)
| Do {X : Type} (c : Call X) (k : X -> Prog R)
| Panic (v : error).
Arguments Ret {R} r.
Arguments Do {R X} c k.
Arguments Panic {R} v.

Fixpoint bind {A B : Type} (p : Prog A) (f : A -> Prog B) : Prog B :=
  match p with
  | Ret a => f a
  | Do c k => Do c (fun x => bind (k x) f)
  | Panic v => Panic v
  end.

Definition call {X : Type} (c : Call X) : Prog X := Do c Ret.

Declare Scope prog_scope.
Delimit Scope prog_scope with prog.
Notation "'do' x <- p ; q" := (bind p (fun x => q))
  (at level 10, x name, p at level 100, q at level 200) : prog_scope.
Notation "'do' ' pat <- p ; q" := (bind p (fun x => match x with pat => q end))
  (at level 10, pat pattern, p at level 100, q at level 200) : prog_scope.
Open Scope prog_scope.

(** ** issue-sync.go *)

(** The newline of a Go string literal. *)
Definition nl : string := String (ascii_of_nat 10) EmptyString.

(** [obj.Issue.State != nil && *obj.Issue.State == "open"] *)
Definition isOpen (obj : MungeObject) : bool :=
  match State (MIssue obj) with
  | Some st => String.eqb st "open"
  | None => false
  end.

(** [p != nil && strings.Contains( *p, id)] *)
Definition containsID (p : option string) (id : string) : bool :=
  match p with
  | Some text => strings.Contains text id
  | None => false
  end.

(** The loop over the comments in [isRecorded]. *)
Fixpoint commentsRecord (comments : list IssueComment) (id : string) : bool :=
  match comments with
  | [] => false
  | c :: comments' =>
      match CommentBody c with
      | None => commentsRecord comments' id
      | Some text =>
          if strings.Contains text id then true else commentsRecord comments' id
      end
  end.

(** [fmt.Errorf("error getting comments for %v: %v", *obj.Issue.Number, err)] *)
Definition listingError (obj : MungeObject) (err : error) : error :=
  Errorf "error getting comments for %v: %v" [Int (Number (MIssue obj)); Err err].

(** Search through the body and comments to see if the given item is already
    mentioned in the given github issue. *)
Definition isRecorded (obj : MungeObject) (source : IssueSource)
  : Prog (bool * option error) :=
  let id := ID source in
  if containsID (Body (MIssue obj)) id then Ret (true, None)
  else
    do r <- call (ListComments obj);
    match r with
    | inl err => Ret (false, Some (listingError obj err))
    | inr comments => Ret (commentsRecord comments id, None)
    end.

(** [fmt.Errorf("error getting object for %v: %v", previousIssue, err)] *)
Definition fetchError (number : Z) (err : error) : error :=
  Errorf "error getting object for %v: %v" [Int number; Err err].

(** [fmt.Errorf("error checking whether item %v is recorded in issue %v: %v",
    source.ID(), previousIssue, err)] *)
Definition checkError (source : IssueSource) (number : Z) (err : error) : error :=
  Errorf "error checking whether item %v is recorded in issue %v: %v"
    [Str (ID source); Int number; Err err].

(** The loop of [findPreviousIssues], with its two named results as
    accumulators. *)
Fixpoint findPreviousIssues_loop (source : IssueSource) (possibleIssues : list Z)
    (found : bool) (updatableIssues : list MungeObject)
  : Prog (bool * list MungeObject * option error) :=
  match possibleIssues with
  | [] => Ret (found, updatableIssues, None)
  | previousIssue :: possibleIssues' =>
      do r <- call (GetObject previousIssue);
      match r with
      | inl err => Ret (false, [], Some (fetchError previousIssue err))
      | inr obj =>
          do '(isRec, err) <- isRecorded obj source;
          match err with
          | Some err => Ret (false, [], Some (checkError source previousIssue err))
          | None =>
              let found := if isRec then true else found in
              let updatableIssues :=
                if isOpen obj then updatableIssues ++ [obj] else updatableIssues in
              findPreviousIssues_loop source possibleIssues' found updatableIssues
          end
      end
  end.

(** Look through all issues filed about this item. *)
Definition findPreviousIssues (source : IssueSource)
  : Prog (bool * list MungeObject * option error) :=
  do possibleIssues <- call (AllIssuesForKey (Title source));
  findPreviousIssues_loop source possibleIssues false [].

(** The message of [dup.CloseIssuef("This is a duplicate of #%v; closing", of)] *)
Definition dupMessage (ofNumber : Z) : string :=
  Sprintf "This is a duplicate of #%v; closing" [pretty ofNumber].

(** [fmt.Errorf("failed to close %v as a dup of %v: %v", *dup.Issue.Number,
    of, err)] *)
Definition closeError (dup : MungeObject) (ofNumber : Z) (err : error) : error :=
  Errorf "failed to close %v as a dup of %v: %v"
    [Int (Number (MIssue dup)); Int ofNumber; Err err].

(** Close all of the dups. *)
Fixpoint markAsDups (dups : list MungeObject) (ofNumber : Z) : Prog (option error) :=
  match dups with
  | [] => Ret None
  | dup :: dups' =>
      do r <- call (CloseIssuef dup (dupMessage ofNumber));
      match r with
      | Some err => Ret (Some (closeError dup ofNumber err))
      | None => markAsDups dups' ofNumber
      end
  end.

(** [fmt.Errorf("Programmer error: %v does not contain %v!", body, id)] *)
Definition programmerError (body id : string) : error :=
  Errorf "Programmer error: %v does not contain %v!" [Str body; Str id].

(** The lines given to [glog.Infof]. *)
Definition updateLog (obj : MungeObject) (source : IssueSource) : string :=
  Sprintf "Updating issue %v with item %v" [pretty (Number (MIssue obj)); ID source].

Definition createLog (obj : MungeObject) (body : string) : string :=
  Sprintf ("Created issue %v:" +:+ nl +:+ "%v") [pretty (Number (MIssue obj)); body].

(** updateIssue adds a comment about the item to the github object. *)
Definition updateIssue (obj : MungeObject) (source : IssueSource)
  : Prog (option error) :=
  let body := SourceBody source false in
  let id := ID source in
  if negb (strings.Contains body (ID source)) then
    Panic (programmerError body id)
  else
    do _ <- call (Infof (updateLog obj source));
    call (WriteComment obj body).

(** createIssue makes a new issue for the given item. *)
Definition createIssue (source : IssueSource) : Prog (Z * option error) :=
  let body := SourceBody source true in
  let id := ID source in
  if negb (strings.Contains body (ID source)) then
    Panic (programmerError body id)
  else
    do r <- call (NewIssue (Title source) body (Labels source));
    match r with
    | inl err => Ret (0, Some err)
    | inr obj =>
        do _ <- call (Infof (createLog obj body));
        Ret (Number (MIssue obj), None)
    end.

(** [s.synced.Insert(source.ID())] *)
Definition markSynced (s : IssueSyncer) (source : IssueSource) : IssueSyncer :=
  {| synced := {[ID source]} ∪ synced s |}.

(** The slice expressions [l[0]] and [l[1:]]; out of range they panic. *)
Definition indexOutOfRange : error :=
  IOError "runtime error: index out of range [0] with length 0".

(** The block of [Sync] that closes dups if there are multiple open
    issues. *)
Definition closeDups (updatableIssues : list MungeObject) : Prog (option error) :=
  if Nat.ltb 1 (length updatableIssues) then
    match updatableIssues with
    | obj :: rest => markAsDups rest (Number (MIssue obj))
    | [] => Panic indexOutOfRange
    end
  else Ret None.

(** [fmt.Errorf("error updating issue %v for %v: %v", *obj.Issue.Number,
    source.ID(), err)] *)
Definition updateError (obj : MungeObject) (source : IssueSource) (err : error) : error :=
  Errorf "error updating issue %v for %v: %v"
    [Int (Number (MIssue obj)); Str (ID source); Err err].

(** [fmt.Errorf("error making issue for %v: %v", source.ID, err)]: the
    operand is the method value [source.ID], not the result of calling it. *)
Definition createError (err : error) : error :=
  Errorf "error making issue for %v: %v" [Func "source.ID"; Err err].

(** Sync syncs the issue.  The pair is the syncer after the call and the
    returned error. *)
Definition Sync (s : IssueSyncer) (source : IssueSource)
  : Prog (IssueSyncer * option error) :=
  if decide (ID source ∈ synced s) then Ret (s, None)
  else
    do '(found, updatableIssues, err) <- findPreviousIssues source;
    match err with
    | Some err => Ret (s, Some err)
    | None =>
        do err <- closeDups updatableIssues;
        match err with
        | Some err => Ret (s, Some err)
        | None =>
            if found : bool then Ret (markSynced s source, None)
            else if Nat.ltb 0 (length updatableIssues) then
              match updatableIssues with
              | obj :: _ =>
                  do err <- updateIssue obj source;
                  match err with
                  | Some err => Ret (s, Some (updateError obj source err))
                  | None => Ret (markSynced s source, None)
                  end
              | [] => Panic indexOutOfRange
              end
            else
              do '(n, err) <- createIssue source;
              match err with
              | Some err => Ret (s, Some (createError err))
              | None =>
                  do _ <- call (Created (Title source) n);
                  Ret (markSynced s source, None)
              end
        end
    end.

#[global] Arguments dupMessage : simpl never.
#[global] Arguments updateLog : simpl never.
#[global] Arguments createLog : simpl never.
#[global] Arguments programmerError : simpl never.
#[global] Arguments listingError : simpl never.
#[global] Arguments fetchError : simpl never.
#[global] Arguments checkError : simpl never.
#[global] Arguments closeError : simpl never.
#[global] Arguments updateError : simpl never.
#[global] Arguments createError : simpl never.
#[global] Arguments isOpen : simpl never.
#[global] Arguments containsID : simpl never.
#[global] Arguments strings.Contains : simpl never.

(** ** Running a program against collaborators *)

(** One call and its answer. *)
Inductive Event : Type :=
| Ev {X : Type} (c : Call X) (x : X).

Inductive Result (R : Type) : Type :=
| Returned (r : R)
| Panicked (v : error).
Arguments Returned {R} r.
Arguments Panicked {R} v.

Record Run (W R : Type) : Type :=
  MkRun { trace : list Event; final : W; result : Result R }.
Arguments MkRun {W R} trace final result.
Arguments trace {W R} r.
Arguments final {W R} r.
Arguments result {W R} r.

(** The collaborators, as a state transformer over a world [W]. *)
Definition Handler (W : Type) : Type := forall X : Type, Call X -> W -> X * W.

Fixpoint run {W R : Type} (h : Handler W) (p : Prog R) (w : W) : Run W R :=
  match p with
  | Ret r => MkRun [] w (Returned r)
  | Panic v => MkRun [] w (Panicked v)
  | Do c k =>
      let '(x, w') := h _ c w in
      let r := run h (k x) w' in
      MkRun (Ev c x :: trace r) (final r) (result r)
  end.

(** ** A tracker and a lookup index to run against *)

(** Modelled from the spec: the github client and the issue finder are
    outside this package, the spec gives their interface (section 6).  A
    tracking issue has a number, an optional state, an optional body and an
    ordered sequence of comments; fetching gives a snapshot of it; closing
    posts the message and leaves the issue not open; commenting appends;
    creating returns the number of a new open issue.  The lookup index maps
    a title to issue numbers and records newly created ones.  Every
    operation of the tracker can fail with an I/O error: [faults] scripts
    the outcome of the coming tracker operations, in order, and an
    exhausted script means no failure. *)
Record TrackingIssue := {
  tiTitle : string;
  tiState : option string;
  tiBody : option string;
  tiComments : list IssueComment;
  tiLabels : list string
}.

(** Modelled from the spec: the state of the tracker, of the lookup index,
    and the script of coming failures. *)
Record World := {
  tracker : gmap Z TrackingIssue;
  lookupIndex : gmap string (list Z);
  faults : list (option error)
}.

(** Modelled from the spec: what a fetch of issue [number] exposes. *)
Definition snapshot (number : Z) (ti : TrackingIssue) : MungeObject :=
  {| MIssue := {| Number := number; State := tiState ti; Body := tiBody ti |} |}.

Definition withFaults (w : World) (fs : list (option error)) : World :=
  {| tracker := tracker w; lookupIndex := lookupIndex w; faults := fs |}.

Definition popFault (w : World) : option error * World :=
  match faults w with
  | [] => (None, w)
  | f :: fs => (f, withFaults w fs)
  end.

Definition setTracker (w : World) (t : gmap Z TrackingIssue) : World :=
  {| tracker := t; lookupIndex := lookupIndex w; faults := faults w |}.

Definition addComment (msg : string) (ti : TrackingIssue) : TrackingIssue :=
  {| tiTitle := tiTitle ti; tiState := tiState ti; tiBody := tiBody ti;
     tiComments := tiComments ti ++ [{| CommentBody := Some msg |}];
     tiLabels := tiLabels ti |}.

Definition close (ti : TrackingIssue) : TrackingIssue :=
  {| tiTitle := tiTitle ti; tiState := Some "closed"; tiBody := tiBody ti;
     tiComments := tiComments ti; tiLabels := tiLabels ti |}.

(** A number no issue of the tracker has. *)
Definition nextNumber (t : gmap Z TrackingIssue) : Z :=
  1 + map_fold (fun n _ acc => Z.max n acc) 0 t.

(** [AllIssuesForKey]: the numbers filed under the key, none if there is
    no entry. *)
Definition candidates (w : World) (key : string) : list Z :=
  default [] (lookupIndex w !! key).

Definition notFound : error := IOError "404 Not Found".

(** Modelled from the spec: the two collaborators over [World] (section 6).
    The lookup index does no I/O and cannot fail; a fetch of a number the
    tracker does not have fails. *)
Definition mock : Handler World := fun X c =>
  match c in Call X return World -> X * World with
  | AllIssuesForKey key => fun w => (candidates w key, w)
  | Created key number => fun w =>
      (tt, {| tracker := tracker w;
              lookupIndex := <[key := candidates w key ++ [number]]> (lookupIndex w);
              faults := faults w |})
  | GetObject number => fun w =>
      match popFault w with
      | (Some err, w') => (inl err, w')
      | (None, w') =>
          match tracker w' !! number with
          | Some ti => (inr (snapshot number ti), w')
          | None => (inl notFound, w')
          end
      end
  | NewIssue title body labels => fun w =>
      match popFault w with
      | (Some err, w') => (inl err, w')
      | (None, w') =>
          let number := nextNumber (tracker w') in
          let ti := {| tiTitle := title; tiState := Some "open"; tiBody := Some body;
                       tiComments := []; tiLabels := labels |} in
          (inr (snapshot number ti), setTracker w' (<[number := ti]> (tracker w')))
      end
  | ListComments obj => fun w =>
      match popFault w with
      | (Some err, w') => (inl err, w')
      | (None, w') =>
          (inr (from_option tiComments [] (tracker w' !! Number (MIssue obj))), w')
      end
  | CloseIssuef obj msg => fun w =>
      match popFault w with
      | (Some err, w') => (Some err, w')
      | (None, w') =>
          (None, setTracker w'
                   (alter (fun ti => close (addComment msg ti))
                          (Number (MIssue obj)) (tracker w')))
      end
  | WriteComment obj msg => fun w =>
      match popFault w with
      | (Some err, w') => (Some err, w')
      | (None, w') =>
          (None, setTracker w' (alter (addComment msg) (Number (MIssue obj)) (tracker w')))
      end
  | Infof _ => fun w => (tt, w)
  end.

(** The state of the tracker, read directly. *)

(** The snapshots a fetch of each number gives, for the numbers that exist. *)
Definition snapshots (t : gmap Z TrackingIssue) (l : list Z) : list MungeObject :=
  omap (fun n => snapshot n <$> t !! n) l.

(** Issue [n] is open. *)
Definition openIn (t : gmap Z TrackingIssue) (n : Z) : bool :=
  match t !! n with
  | Some ti => isOpen (snapshot n ti)
  | None => false
  end.

(** Issue [n] mentions the token in its body or in a comment. *)
Definition recordedIn (t : gmap Z TrackingIssue) (id : string) (n : Z) : bool :=
  match t !! n with
  | Some ti => containsID (tiBody ti) id || commentsRecord (tiComments ti) id
  | None => false
  end.

(** The open tracking issues for a title: the candidates of the lookup
    index that are open in the tracker. *)
Definition openIssues (w : World) (title : string) : gset Z :=
  list_to_set (List.filter (openIn (tracker w)) (candidates w title)).

(** The item and the worlds of the scenarios. *)
Definition flaky : IssueSource :=
  {| Title := "Flaky test X"; ID := "flaky-test-x-v1";
     SourceBody := fun newIssue =>
       if newIssue then "Failed: see flaky-test-x-v1" else "Again: flaky-test-x-v1";
     Labels := ["kind/flake"] |}.

Definition openIssue (body : string) : TrackingIssue :=
  {| tiTitle := "Flaky test X"; tiState := Some "open"; tiBody := Some body;
     tiComments := []; tiLabels := [] |}.

Definition w573 : World :=
  {| tracker := <[5 := openIssue "a"]> (<[7 := openIssue "b"]> (<[3 := openIssue "c"]> ∅));
     lookupIndex := {[ "Flaky test X" := [5; 7; 3] ]};
     faults := [] |}.

(** Issue 5 has no body, a comment without a body and a comment that names
    the item. *)
Definition commented : World :=
  {| tracker :=
       {[ 5 := {| tiTitle := "Flaky test X"; tiState := Some "open"; tiBody := None;
                  tiComments := [ {| CommentBody := None |};
                                  {| CommentBody := Some "seen in flaky-test-x-v1 again" |} ];
                  tiLabels := [] |} ]};
     lookupIndex := {[ "Flaky test X" := [5] ]};
     faults := [] |}.

Definition boom : error := IOError "boom".

(** An item whose comment text lacks its own token. *)
Definition careless : IssueSource :=
  {| Title := "Flaky test X"; ID := "flaky-test-x-v1";
     SourceBody := fun newIssue => if newIssue then "Failed: see flaky-test-x-v1" else "Again";
     Labels := ["kind/flake"] |}.


(** Nothing filed yet. *)
Definition blank : World := {| tracker := ∅; lookupIndex := ∅; faults := [] |}.

(** The lookup index lists issue 5 twice. *)
Definition listedTwice : World :=
  {| tracker := {[ 5 := openIssue "a" ]};
     lookupIndex := {[ "Flaky test X" := [5; 5] ]};
     faults := [] |}.

(** ** What a trace shows *)

(** The body text an event posts to the tracker, as a comment or as a new
    issue. *)
Definition posted (ev : Event) : option string :=
  match ev with
  | Ev c _ =>
      match c with
      | WriteComment _ msg => Some msg
      | NewIssue _ body _ => Some body
      | _ => None
      end
  end.

(** The issue an event asks the tracker to close. *)
Definition closed (ev : Event) : option MungeObject :=
  match ev with
  | Ev c _ =>
      match c with
      | CloseIssuef obj _ => Some obj
      | _ => None
      end
  end.

(** Requests that change the tracker or the lookup index. *)
Definition mutating (ev : Event) : bool :=
  match ev with
  | Ev c _ =>
      match c with
      | CloseIssuef _ _ | WriteComment _ _ | NewIssue _ _ _ | Created _ _ => true
      | _ => false
      end
  end.

(** The issue a successful fetch returned. *)
Definition fetched (ev : Event) : option MungeObject :=
  match ev with
  | Ev c x =>
      match c in Call X return X -> option MungeObject with
      | GetObject _ => fun x => match x with inr obj => Some obj | inl _ => None end
      | _ => fun _ => None
      end x
  end.

(** A comment listing that failed, with the issue and the error. *)
Definition listFailure (ev : Event) : option (MungeObject * error) :=
  match ev with
  | Ev c x =>
      match c in Call X return X -> option (MungeObject * error) with
      | ListComments obj =>
          fun x => match x with inl err => Some (obj, err) | inr _ => None end
      | _ => fun _ => None
      end x
  end.

(** The answer of an event shows the token: a fetched issue whose body
    contains it, or listed comments one of which contains it. *)
Definition records (id : string) (ev : Event) : bool :=
  match ev with
  | Ev c x =>
      match c in Call X return X -> bool with
      | GetObject _ =>
          fun x => match x with
                   | inr obj => containsID (Body (MIssue obj)) id
                   | inl _ => false
                   end
      | ListComments _ =>
          fun x => match x with
                   | inr comments => commentsRecord comments id
                   | inl _ => false
                   end
      | _ => fun _ => false
      end x
  end.

(** Events of the discovery phase: the lookup, fetches and comment
    listings. *)
Definition reading (ev : Event) : bool :=
  match ev with
  | Ev c _ =>
      match c with
      | AllIssuesForKey _ | GetObject _ | ListComments _ => true
      | _ => false
      end
  end.

(** The requests of a trace that change the tracker or the index. *)
Definition requests (tr : list Event) : list Event :=
  List.filter mutating tr.

(** [sub] occurs in [s]. *)
Definition isSubstring (sub s : string) : Prop :=
  exists pre post, s = pre +:+ sub +:+ post.

(** The number a fetch asks for. *)
Definition requested (ev : Event) : option Z :=
  match ev with
  | Ev c _ =>
      match c with
      | GetObject number => Some number
      | _ => None
      end
  end.

(** A fetch that failed, with the number and the error. *)
Definition fetchFailure (ev : Event) : option (Z * error) :=
  match ev with
  | Ev c x =>
      match c in Call X return X -> option (Z * error) with
      | GetObject number =>
          fun x => match x with inl err => Some (number, err) | inr _ => None end
      | _ => fun _ => None
      end x
  end.

(** The issue whose comments an event asks for. *)
Definition listed (ev : Event) : option MungeObject :=
  match ev with
  | Ev c _ =>
      match c with
      | ListComments obj => Some obj
      | _ => None
      end
  end.

(** The key and number an event registers with the issue finder. *)
Definition registered (ev : Event) : option (string * Z) :=
  match ev with
  | Ev c _ =>
      match c with
      | Created key number => Some (key, number)
      | _ => None
      end
  end.

(** The title and number of an issue an event has created. *)
Definition filed (ev : Event) : option (string * Z) :=
  match ev with
  | Ev c x =>
      match c in Call X return X -> option (string * Z) with
      | NewIssue title _ _ =>
          fun x => match x with
                   | inr obj => Some (title, Number (MIssue obj))
                   | inl _ => None
                   end
      | _ => fun _ => None
      end x
  end.

(** An event asks for a new issue. *)
Definition creating (ev : Event) : bool :=
  match ev with
  | Ev c _ =>
      match c with
      | NewIssue _ _ _ => true
      | _ => false
      end
  end.

(** The endings of a call, as the requests they make. *)
Inductive Ending (s : IssueSyncer) (source : IssueSource)
    (found : bool) (updatable : list MungeObject)
  : list Event -> Result (IssueSyncer * option error) -> Prop :=
| EndRecorded :
    found = true ->
    Ending s source found updatable [] (Returned (markSynced s source, None))
| EndPanicked (newIssue : bool) :
    found = false ->
    newIssue = match updatable with [] => true | _ => false end ->
    strings.Contains (SourceBody source newIssue) (ID source) = false ->
    Ending s source found updatable []
      (Panicked (programmerError (SourceBody source newIssue) (ID source)))
| EndCommented (obj : MungeObject) (rest : list MungeObject) (answer : option error) :
    found = false ->
    updatable = obj :: rest ->
    strings.Contains (SourceBody source false) (ID source) = true ->
    Ending s source found updatable
      [Ev (Infof (updateLog obj source)) ();
       Ev (WriteComment obj (SourceBody source false)) answer]
      (Returned match answer with
                | None => (markSynced s source, None)
                | Some err => (s, Some (updateError obj source err))
                end)
| EndNotCreated (err : error) :
    found = false ->
    updatable = [] ->
    strings.Contains (SourceBody source true) (ID source) = true ->
    Ending s source found updatable
      [Ev (NewIssue (Title source) (SourceBody source true) (Labels source)) (inl err)]
      (Returned (s, Some (createError err)))
| EndCreated (obj : MungeObject) :
    found = false ->
    updatable = [] ->
    strings.Contains (SourceBody source true) (ID source) = true ->
    Ending s source found updatable
      [Ev (NewIssue (Title source) (SourceBody source true) (Labels source)) (inr obj);
       Ev (Infof (createLog obj (SourceBody source true))) ();
       Ev (Created (Title source) (Number (MIssue obj))) ()]
      (Returned (markSynced s source, None)).

(** The phases of a call for a token not yet synced. *)
Inductive Phases {W : Type} (h : Handler W) (s : IssueSyncer) (source : IssueSource)
    (w : W) : list Event -> Result (IssueSyncer * option error) -> Prop :=
| DiscoveryFailed (found : bool) (updatable : list MungeObject) (err : error) :
    result (run h (findPreviousIssues source) w) = Returned (found, updatable, Some err) ->
    Phases h s source w (trace (run h (findPreviousIssues source) w))
      (Returned (s, Some err))
| ClosingFailed (found : bool) (updatable : list MungeObject)
    (closes : list Event) (err : error) :
    result (run h (findPreviousIssues source) w) = Returned (found, updatable, None) ->
    Forall (fun ev => is_Some (closed ev)) closes ->
    (1 < length updatable)%nat ->
    Phases h s source w (trace (run h (findPreviousIssues source) w) ++ closes)
      (Returned (s, Some err))
| Ended (found : bool) (updatable : list MungeObject)
    (closes ending : list Event) (res : Result (IssueSyncer * option error)) :
    result (run h (findPreviousIssues source) w) = Returned (found, updatable, None) ->
    Forall (fun ev => is_Some (closed ev)) closes ->
    (closes <> [] -> (1 < length updatable)%nat) ->
    Ending s source found updatable ending res ->
    Phases h s source w (trace (run h (findPreviousIssues source) w) ++ closes ++ ending)
      res.

(** The issue an event asks to close or to comment on. *)
Definition target (ev : Event) : option MungeObject :=
  match ev with
  | Ev c _ =>
      match c with
      | CloseIssuef obj _ | WriteComment obj _ => Some obj
      | _ => None
      end
  end.

(** The error a collaborator answered with. *)
Definition failure (ev : Event) : option error :=
  match ev with
  | Ev c x =>
      match c in Call X return X -> option error with
      | GetObject _ => fun x => match x with inl err => Some err | inr _ => None end
      | NewIssue _ _ _ => fun x => match x with inl err => Some err | inr _ => None end
      | ListComments _ => fun x => match x with inl err => Some err | inr _ => None end
      | CloseIssuef _ _ => fun x => x
      | WriteComment _ _ => fun x => x
      | _ => fun _ => None
      end x
  end.

(** The error that the last operand of an [Errorf] carries. *)
Definition wrappedErr (e : error) : option error :=
  match e with
  | Errorf _ args =>
      match last args with
      | Some (Err e') => Some e'
      | _ => None
      end
  | IOError _ => None
  end.

(** [e] wraps [err], directly or with one wrapper in between. *)
Definition wraps (e err : error) : Prop :=
  wrappedErr e = Some err \/
  exists e', wrappedErr e = Some e' /\ wrappedErr e' = Some err.

(** A trace without a failing answer. *)
Definition Clean (tr : list Event) : Prop :=
  Forall (fun ev => failure ev = None) tr.

(** A trace that ends on its first failing answer, which [e] wraps. *)
Definition FailedWith (tr : list Event) (e : error) : Prop :=
  exists init ev err,
    tr = init ++ [ev] /\ Forall (fun ev => failure ev = None) init /\
    failure ev = Some err /\ wraps e err.

(** The byte [c] occurs in [s]. *)
Fixpoint occurs (c : ascii) (s : string) : bool :=
  match s with
  | EmptyString => false
  | String a s' => Ascii.eqb a c || occurs c s'
  end.

(** * Properties *)

(** ** Substrings *)

Lemma prefix_app (p s : string) :
  String.prefix p s = true <-> exists post, s = p +:+ post.
Proof.
  revert s. induction p as [|a p IH]; intros s.
  - split; [intros _; by exists s | by destruct s].
  - destruct s as [|b s]; simpl.
    + split; [done | intros [post H]; discriminate H].
    + destruct (Ascii.ascii_dec a b) as [->|Hne].
      * rewrite IH. split; intros [post H]; exists post.
        -- by rewrite H.
        -- by injection H.
      * split; [done | intros [post H]; by injection H].
Qed.

Lemma Contains_unfold (s sub : string) :
  strings.Contains s sub =
  if String.prefix sub s then true
  else match s with
       | EmptyString => false
       | String _ s' => strings.Contains s' sub
       end.
Proof. by destruct s. Qed.

(** [strings.Contains] decides literal occurrence. *)
Lemma Contains_substring (s sub : string) :
  strings.Contains s sub = true <-> exists pre post, s = pre +:+ sub +:+ post.
Proof.
  induction s as [|a s IH]; rewrite Contains_unfold.
  - destruct (String.prefix sub "") eqn:Hp.
    + split; [intros _ | done].
      apply prefix_app in Hp as [post Hp]. by exists "", post.
    + split; [done |]. intros [pre [post H]].
      destruct pre; simpl in H; [| discriminate H].
      assert (String.prefix sub "" = true) as Hp' by (apply prefix_app; eauto).
      congruence.
  - destruct (String.prefix sub (String a s)) eqn:Hp.
    + split; [intros _ | done].
      apply prefix_app in Hp as [post Hp]. by exists "", post.
    + rewrite IH. split.
      * intros [pre [post H]]. exists (String a pre), post. simpl. by rewrite H.
      * intros [pre [post H]]. destruct pre as [|b pre]; simpl in H.
        -- assert (String.prefix sub (String a s) = true) as Hp'
             by (apply prefix_app; eauto).
           congruence.
        -- exists pre, post. by injection H.
Qed.

(** ** Running *)

Section Running.
Context {W : Type} (h : Handler W).

Lemma run_bind {A B : Type} (p : Prog A) (f : A -> Prog B) (w : W) :
  run h (bind p f) w =
  let r1 := run h p w in
  match result r1 with
  | Returned a =>
      let r2 := run h (f a) (final r1) in
      MkRun (trace r1 ++ trace r2) (final r2) (result r2)
  | Panicked v => MkRun (trace r1) (final r1) (Panicked v)
  end.
Proof.
  revert w. induction p as [a|X c k IH|v]; intros w; simpl.
  - by destruct (run h (f a) w).
  - destruct (h X c w) as [x w']. rewrite IH. simpl.
    by destruct (result (run h (k x) w')).
  - done.
Qed.

Lemma run_call {X : Type} (c : Call X) (w : W) :
  run h (call c) w = MkRun [Ev c (h X c w).1] (h X c w).2 (Returned (h X c w).1).
Proof. unfold call. simpl. by destruct (h X c w). Qed.

End Running.

(** ** The parts of [Sync], against any collaborators *)

Lemma reading_quiet (ev : Event) :
  reading ev = true -> mutating ev = false /\ posted ev = None /\ closed ev = None.
Proof. by destruct ev as [X []]. Qed.

Lemma containsID_substring (p : option string) (id : string) :
  containsID p id = true <-> exists text, p = Some text /\ isSubstring id text.
Proof.
  destruct p as [text|]; unfold containsID.
  - rewrite Contains_substring. split.
    + intros H. by exists text.
    + by intros [? [[= <-] H]].
  - split; [done | by intros [? [? _]]].
Qed.

Lemma commentsRecord_substring (comments : list IssueComment) (id : string) :
  commentsRecord comments id = true <->
  exists c text, c ∈ comments /\ CommentBody c = Some text /\ isSubstring id text.
Proof.
  induction comments as [|c comments IH]; simpl.
  - split; [done |]. intros (c & text & Hin & _). by apply elem_of_nil in Hin.
  - destruct (CommentBody c) as [text|] eqn:Hc.
    + destruct (strings.Contains text id) eqn:Ht.
      * split; [intros _ | done]. exists c, text.
        split; [by left |]. split; [done |]. by apply Contains_substring.
      * rewrite IH. split.
        -- intros (c' & t & Hin & Hb & Hs). exists c', t. split; [by right | done].
        -- intros (c' & t & Hin & Hb & Hs).
           apply elem_of_cons in Hin as [->|Hin]; [| by exists c', t].
           rewrite Hc in Hb. injection Hb as <-.
           apply Contains_substring in Hs. congruence.
    + rewrite IH. split.
      * intros (c' & t & Hin & Hb & Hs). exists c', t. split; [by right | done].
      * intros (c' & t & Hin & Hb & Hs).
        apply elem_of_cons in Hin as [->|Hin]; [congruence | by exists c', t].
Qed.

Lemma omap_cons {A B : Type} (f : A -> option B) (x : A) (l : list A) :
  omap f (x :: l) = match f x with Some y => y :: omap f l | None => omap f l end.
Proof. done. Qed.

Lemma found_step (a found0 e : bool) :
  (if a then true else found0) || e = found0 || (a || e).
Proof. by destruct a, found0, e. Qed.

Section Parts.
Context {W : Type} (h : Handler W).

Lemma isRecorded_run (obj : MungeObject) (source : IssueSource) (w : W) :
  run h (isRecorded obj source) w =
  if containsID (Body (MIssue obj)) (ID source) then MkRun [] w (Returned (true, None))
  else
    let a := h _ (ListComments obj) w in
    MkRun [Ev (ListComments obj) a.1] a.2
      (Returned match a.1 with
                | inl err => (false, Some (listingError obj err))
                | inr comments => (commentsRecord comments (ID source), None)
                end).
Proof.
  unfold isRecorded. destruct (containsID _ _); [done |].
  simpl. by destruct (h _ (ListComments obj) w) as [[err|comments] w'].
Qed.

(** One turn of the loop of [findPreviousIssues]. *)
Lemma findPreviousIssues_loop_cons (source : IssueSource) (n : Z) (rest : list Z)
    (found : bool) (upd : list MungeObject) (w : W) :
  run h (findPreviousIssues_loop source (n :: rest) found upd) w =
  let a := h _ (GetObject n) w in
  match a.1 with
  | inl err => MkRun [Ev (GetObject n) a.1] a.2 (Returned (false, [], Some (fetchError n err)))
  | inr obj =>
      if containsID (Body (MIssue obj)) (ID source) then
        let r := run h (findPreviousIssues_loop source rest true
                          (if isOpen obj then upd ++ [obj] else upd)) a.2 in
        MkRun (Ev (GetObject n) a.1 :: trace r) (final r) (result r)
      else
        let b := h _ (ListComments obj) a.2 in
        match b.1 with
        | inl err =>
            MkRun [Ev (GetObject n) a.1; Ev (ListComments obj) b.1] b.2
              (Returned (false, [], Some (checkError source n (listingError obj err))))
        | inr comments =>
            let r := run h (findPreviousIssues_loop source rest
                              (if commentsRecord comments (ID source) then true else found)
                              (if isOpen obj then upd ++ [obj] else upd)) b.2 in
            MkRun (Ev (GetObject n) a.1 :: Ev (ListComments obj) b.1 :: trace r)
              (final r) (result r)
        end
  end.
Proof.
  cbn [findPreviousIssues_loop]. rewrite run_bind, run_call. cbn zeta.
  destruct (h _ (GetObject n) w) as [[err|obj] w1]; [done |]. cbn -[isOpen].
  rewrite run_bind, isRecorded_run.
  destruct (containsID _ _); [done |]. cbn -[isOpen].
  by destruct (h _ (ListComments obj) w1) as [[err|comments] w2].
Qed.

Ltac loop_turn n w :=
  rewrite findPreviousIssues_loop_cons; cbn zeta;
  let obj := fresh "obj" in
  let w1 := fresh "w" in
  let w2 := fresh "w" in
  let Hbody := fresh "Hbody" in
  destruct (h _ (GetObject n) w) as [[?err|obj] w1]; cbn [fst snd];
  [| destruct (containsID (Body (MIssue obj)) _) eqn:Hbody;
     [| destruct (h _ (ListComments obj) w1) as [[?err|?comments] w2]; cbn [fst snd]]].

(** Discovery returns; it never panics. *)
Lemma findPreviousIssues_loop_returns (source : IssueSource) (l : list Z)
    (found : bool) (upd : list MungeObject) (w : W) :
  exists x, result (run h (findPreviousIssues_loop source l found upd) w) = Returned x.
Proof.
  revert found upd w. induction l as [|n l IH]; intros found upd w.
  - by eexists.
  - loop_turn n w; cbn [result]; eauto.
Qed.

(** Discovery only looks up, fetches and lists. *)
Lemma findPreviousIssues_loop_reading (source : IssueSource) (l : list Z)
    (found : bool) (upd : list MungeObject) (w : W) :
  Forall (fun ev => reading ev = true)
    (trace (run h (findPreviousIssues_loop source l found upd) w)).
Proof.
  revert found upd w. induction l as [|n l IH]; intros found upd w.
  - constructor.
  - loop_turn n w; cbn [trace]; repeat (constructor; [done |]); auto.
Qed.

(** When discovery succeeds, no listing has failed and the updatable
    issues are the fetched ones that are open, in the order fetched. *)
Lemma findPreviousIssues_loop_ok (source : IssueSource) (l : list Z)
    (found0 : bool) (upd0 : list MungeObject) (w : W)
    (found : bool) (upd : list MungeObject) :
  let r := run h (findPreviousIssues_loop source l found0 upd0) w in
  result r = Returned (found, upd, None) ->
  upd = upd0 ++ List.filter isOpen (omap fetched (trace r)) /\
  Forall (fun ev => listFailure ev = None) (trace r).
Proof.
  revert found0 upd0 w. induction l as [|n l IH]; intros found0 upd0 w; cbn zeta.
  - intros [= <- <-]. by rewrite app_nil_r.
  - loop_turn n w; cbn [result trace]; try done.
    + intros Hr. destruct (IH _ _ _ Hr) as [Heq Hl]. split; [| constructor; [reflexivity | assumption]].
      rewrite Heq, !omap_cons. cbn [fetched listFailure List.filter].
      destruct (isOpen obj); [by rewrite <- app_assoc | done].
    + intros Hr. destruct (IH _ _ _ Hr) as [Heq Hl].
      split; [| do 2 (constructor; [reflexivity |]); assumption].
      rewrite Heq, !omap_cons. cbn [fetched listFailure List.filter].
      destruct (isOpen obj); [by rewrite <- app_assoc | done].
Qed.

(** When discovery succeeds, [found] tells whether the token was seen in a
    fetched body or in listed comments. *)
Lemma findPreviousIssues_loop_found (source : IssueSource) (l : list Z)
    (found0 : bool) (upd0 : list MungeObject) (w : W)
    (found : bool) (upd : list MungeObject) :
  let r := run h (findPreviousIssues_loop source l found0 upd0) w in
  result r = Returned (found, upd, None) ->
  found = found0 || existsb (records (ID source)) (trace r).
Proof.
  revert found0 upd0 w. induction l as [|n l IH]; intros found0 upd0 w; cbn zeta.
  - intros [= <- <-]. by rewrite orb_false_r.
  - loop_turn n w; cbn [result trace]; try done.
    + intros Hr. rewrite (IH _ _ _ Hr). cbn [existsb records]. rewrite Hbody.
      by rewrite orb_true_r.
    + intros Hr. rewrite (IH _ _ _ Hr). cbn [existsb records]. rewrite Hbody.
      cbn [orb]. apply found_step.
Qed.

(** A failed comment listing ends discovery with an error. *)
Lemma findPreviousIssues_loop_listFailure (source : IssueSource) (l : list Z)
    (found : bool) (upd : list MungeObject) (w : W)
    (ev : Event) (obj : MungeObject) (err : error) :
  let r := run h (findPreviousIssues_loop source l found upd) w in
  ev ∈ trace r -> listFailure ev = Some (obj, err) ->
  (exists n, result r = Returned (false, [], Some (checkError source n (listingError obj err)))) /\
  last (trace r) = Some ev.
Proof.
  revert found upd w. induction l as [|n l IH]; intros found upd w; cbn zeta.
  - intros Hin. by apply elem_of_nil in Hin.
  - loop_turn n w; cbn [result trace]; intros Hin Hev.
    + apply list_elem_of_singleton in Hin as ->. done.
    + apply elem_of_cons in Hin as [-> | Hin]; [done |].
      destruct (IH _ _ _ Hin Hev) as [Hres Hlast]. split; [done |].
      rewrite last_cons, Hlast. done.
    + apply elem_of_cons in Hin as [-> | Hin]; [done |].
      apply list_elem_of_singleton in Hin as ->.
      injection Hev as <- <-. split; [by exists n | done].
    + apply elem_of_cons in Hin as [-> | Hin]; [done |].
      apply elem_of_cons in Hin as [-> | Hin]; [done |].
      destruct (IH _ _ _ Hin Hev) as [Hres Hlast]. split; [done |].
      rewrite !last_cons, Hlast. done.
Qed.

Lemma findPreviousIssues_run (source : IssueSource) (w : W) :
  run h (findPreviousIssues source) w =
  let a := h _ (AllIssuesForKey (Title source)) w in
  let r := run h (findPreviousIssues_loop source a.1 false []) a.2 in
  MkRun (Ev (AllIssuesForKey (Title source)) a.1 :: trace r) (final r) (result r).
Proof.
  unfold findPreviousIssues. rewrite run_bind, run_call. cbn.
  by destruct (findPreviousIssues_loop_returns source
                 (h _ (AllIssuesForKey (Title source)) w).1 false []
                 (h _ (AllIssuesForKey (Title source)) w).2) as [x ->].
Qed.

(** The requests of [markAsDups]: one close per dup, in order, each with
    the message naming [ofNumber], up to the first one that fails. *)
Lemma markAsDups_run (dups : list MungeObject) (ofNumber : Z) (w : W) :
  let r := run h (markAsDups dups ofNumber) w in
  let ok dup := Ev (CloseIssuef dup (dupMessage ofNumber)) None in
  (result r = Returned None /\ trace r = map ok dups) \/
  (exists before dup after err,
      dups = before ++ dup :: after /\
      trace r = map ok before ++ [Ev (CloseIssuef dup (dupMessage ofNumber)) (Some err)] /\
      result r = Returned (Some (closeError dup ofNumber err))).
Proof.
  revert w. induction dups as [|dup dups IH]; intros w; cbn zeta.
  - by left.
  - cbn [markAsDups]. rewrite run_bind, run_call. cbn.
    destruct (h _ (CloseIssuef dup (dupMessage ofNumber)) w) as [[err|] w1]; cbn.
    + right. by exists [], dup, dups, err.
    + destruct (IH w1) as [[Hres Htr] | (before & d & after & err & -> & Htr & Hres)].
      * left. rewrite Hres, Htr. by destruct (result _).
      * right. exists (dup :: before), d, after, err.
        rewrite Hres, Htr. done.
Qed.

Lemma updateIssue_run (obj : MungeObject) (source : IssueSource) (w : W) :
  run h (updateIssue obj source) w =
  if strings.Contains (SourceBody source false) (ID source) then
    let a := h _ (Infof (updateLog obj source)) w in
    let b := h _ (WriteComment obj (SourceBody source false)) a.2 in
    MkRun [Ev (Infof (updateLog obj source)) a.1;
           Ev (WriteComment obj (SourceBody source false)) b.1] b.2 (Returned b.1)
  else MkRun [] w (Panicked (programmerError (SourceBody source false) (ID source))).
Proof.
  unfold updateIssue. destruct (strings.Contains _ _); [| done]. cbn.
  destruct (h _ (Infof _) w) as [u w1]. cbn.
  by destruct (h _ (WriteComment _ _) w1) as [b w2].
Qed.

Lemma createIssue_run (source : IssueSource) (w : W) :
  run h (createIssue source) w =
  if strings.Contains (SourceBody source true) (ID source) then
    let c := NewIssue (Title source) (SourceBody source true) (Labels source) in
    let a := h _ c w in
    match a.1 with
    | inl err => MkRun [Ev c a.1] a.2 (Returned (0, Some err))
    | inr obj =>
        let b := h _ (Infof (createLog obj (SourceBody source true))) a.2 in
        MkRun [Ev c a.1; Ev (Infof (createLog obj (SourceBody source true))) b.1] b.2
          (Returned (Number (MIssue obj), None))
    end
  else MkRun [] w (Panicked (programmerError (SourceBody source true) (ID source))).
Proof.
  unfold createIssue. destruct (strings.Contains _ _); [| done]. cbn.
  destruct (h _ (NewIssue _ _ _) w) as [[err|obj] w1]; [done |]. cbn.
  by destruct (h _ (Infof _) w1) as [u w2].
Qed.

End Parts.

(** ** [Sync], against any collaborators *)

Section SyncRuns.
Context {W : Type} (h : Handler W).

(** How a call of [Sync] for a token not yet synced unfolds into its
    phases: discovery, closing of dups, and one of the three endings. *)
Lemma Sync_run (s : IssueSyncer) (source : IssueSource) (w : W) :
  ID source ∉ synced s ->
  run h (Sync s source) w =
  let d := run h (findPreviousIssues source) w in
  match result d with
  | Panicked v => MkRun (trace d) (final d) (Panicked v)
  | Returned (_, _, Some err) => MkRun (trace d) (final d) (Returned (s, Some err))
  | Returned (found, updatable, None) =>
      let c := run h (closeDups updatable) (final d) in
      match result c with
      | Panicked v => MkRun (trace d ++ trace c) (final c) (Panicked v)
      | Returned (Some err) =>
          MkRun (trace d ++ trace c) (final c) (Returned (s, Some err))
      | Returned None =>
          if found then
            MkRun (trace d ++ trace c) (final c) (Returned (markSynced s source, None))
          else
            match updatable with
            | obj :: _ =>
                let u := run h (updateIssue obj source) (final c) in
                MkRun (trace d ++ trace c ++ trace u) (final u)
                  match result u with
                  | Panicked v => Panicked v
                  | Returned (Some err) => Returned (s, Some (updateError obj source err))
                  | Returned None => Returned (markSynced s source, None)
                  end
            | [] =>
                let n := run h (createIssue source) (final c) in
                match result n with
                | Panicked v => MkRun (trace d ++ trace c ++ trace n) (final n) (Panicked v)
                | Returned (_, Some err) =>
                    MkRun (trace d ++ trace c ++ trace n) (final n)
                      (Returned (s, Some (createError err)))
                | Returned (number, None) =>
                    let k := h _ (Created (Title source) number) (final n) in
                    MkRun (trace d ++ trace c ++ trace n ++ [Ev (Created (Title source) number) k.1])
                      k.2 (Returned (markSynced s source, None))
                end
            end
      end
  end.
Proof.
  intros Hnot. unfold Sync. rewrite decide_False by done.
  rewrite run_bind. cbn zeta.
  destruct (result (run h (findPreviousIssues source) w))
    as [[[found updatable] [err|]]|v];
    [cbn [run trace final result]; by rewrite app_nil_r | | done].
  rewrite run_bind. cbn zeta.
  destruct (result (run h (closeDups updatable) _)) as [[err|]|v] eqn:Hc;
    [cbn [run trace final result]; by rewrite app_nil_r | | done].
  destruct found; [cbn [run trace final result]; by rewrite app_nil_r |].
  destruct updatable as [|obj rest]; cbn [length Nat.ltb Nat.leb].
  - rewrite run_bind. cbn zeta.
    destruct (result (run h (createIssue source) _)) as [[number [err|]]|v];
      [cbn [run trace final result]; by rewrite app_nil_r | | done].
    rewrite run_bind, run_call. cbn [run trace final result]. by rewrite app_nil_r.
  - rewrite run_bind. cbn zeta.
    destruct (result (run h (updateIssue obj source) _)) as [[err|]|v];
      cbn [run trace final result]; by rewrite ?app_nil_r.
Qed.

Lemma closeDups_unfold (updatable : list MungeObject) :
  closeDups updatable =
  match updatable with
  | kept :: (_ :: _) as dups => markAsDups dups (Number (MIssue kept))
  | _ => Ret None
  end.
Proof. by destruct updatable as [|kept [|dup dups]]. Qed.

(** Closing the dups returns, and asks for nothing but closes. *)
Lemma closeDups_closes (updatable : list MungeObject) (w : W) :
  let c := run h (closeDups updatable) w in
  (exists err, result c = Returned err) /\
  Forall (fun ev => is_Some (closed ev)) (trace c).
Proof.
  cbn zeta. rewrite closeDups_unfold.
  destruct updatable as [|kept [|dup dups]];
    [split; [by eexists | constructor].. |].
  destruct (markAsDups_run h (dup :: dups) (Number (MIssue kept)) w)
    as [[-> ->] | (before & d & after & err & _ & -> & ->)].
  - split; [by eexists |]. apply Forall_forall. intros ev Hin.
    apply list_elem_of_fmap in Hin as (o & -> & _). by eexists.
  - split; [by eexists |]. apply Forall_app. split.
    + apply Forall_forall. intros ev Hin.
      apply list_elem_of_fmap in Hin as (o & -> & _). by eexists.
    + repeat constructor. by eexists.
Qed.

Lemma closed_quiet (ev : Event) :
  is_Some (closed ev) ->
  posted ev = None /\ listFailure ev = None /\ fetched ev = None /\ mutating ev = true.
Proof. destruct ev as [X []]; by intros [? [=]]. Qed.

(** The ending that comments: at most a log line and the comment, whose
    text carries the token. *)
Lemma updateIssue_trace (obj : MungeObject) (source : IssueSource) (w : W) :
  Forall (fun ev =>
            closed ev = None /\ listFailure ev = None /\
            forall text, posted ev = Some text ->
                         strings.Contains text (ID source) = true)
    (trace (run h (updateIssue obj source) w)).
Proof.
  rewrite updateIssue_run.
  destruct (strings.Contains _ _) eqn:Hc; cbn; [| constructor].
  repeat constructor; cbn; congruence.
Qed.

(** The ending that creates: at most the creation and a log line, and the
    body carries the token. *)
Lemma createIssue_trace (source : IssueSource) (w : W) :
  Forall (fun ev =>
            closed ev = None /\ listFailure ev = None /\
            forall text, posted ev = Some text ->
                         strings.Contains text (ID source) = true)
    (trace (run h (createIssue source) w)).
Proof.
  rewrite createIssue_run.
  destruct (strings.Contains _ _) eqn:Hc; cbn; [| constructor].
  destruct (h _ (NewIssue _ _ _) w) as [[err|obj] w1]; cbn;
    repeat constructor; cbn; congruence.
Qed.

Lemma findPreviousIssues_reading (source : IssueSource) (w : W) :
  Forall (fun ev => reading ev = true) (trace (run h (findPreviousIssues source) w)).
Proof.
  rewrite findPreviousIssues_run. cbn.
  constructor; [done |]. apply findPreviousIssues_loop_reading.
Qed.

Lemma findPreviousIssues_returns (source : IssueSource) (w : W) :
  exists x, result (run h (findPreviousIssues source) w) = Returned x.
Proof. rewrite findPreviousIssues_run. cbn. apply findPreviousIssues_loop_returns. Qed.

Lemma findPreviousIssues_ok (source : IssueSource) (w : W)
    (found : bool) (updatable : list MungeObject) :
  let d := run h (findPreviousIssues source) w in
  result d = Returned (found, updatable, None) ->
  updatable = List.filter isOpen (omap fetched (trace d)) /\
  Forall (fun ev => listFailure ev = None) (trace d).
Proof.
  cbn zeta. rewrite findPreviousIssues_run. cbn [result trace]. intros Hr.
  apply findPreviousIssues_loop_ok in Hr as [-> Hl].
  split; [done | by constructor].
Qed.

Lemma findPreviousIssues_found (source : IssueSource) (w : W)
    (found : bool) (updatable : list MungeObject) :
  let d := run h (findPreviousIssues source) w in
  result d = Returned (found, updatable, None) ->
  found = existsb (records (ID source)) (trace d).
Proof.
  cbn zeta. rewrite findPreviousIssues_run. cbn [result trace]. intros Hr.
  by apply findPreviousIssues_loop_found in Hr as ->.
Qed.

(** What a call of [Sync] returns, and what it does to [synced]. *)
Lemma Sync_result (s s' : IssueSyncer) (source : IssueSource) (w : W)
    (e : option error) :
  result (run h (Sync s source) w) = Returned (s', e) ->
  match e with
  | Some _ => s' = s /\ ID source ∉ synced s
  | None => (s' = s /\ ID source ∈ synced s) \/
            (s' = markSynced s source /\ ID source ∉ synced s)
  end.
Proof.
  destruct (decide (ID source ∈ synced s)) as [Hin|Hnot].
  - unfold Sync. rewrite decide_True by done. intros [= <- <-]. by left.
  - rewrite Sync_run by done. cbn zeta. intros Hr.
    repeat case_match; cbn [result] in Hr; simplify_eq; auto.
Qed.


End SyncRuns.

(** ** The early exit *)

(** C2.  For an item whose token is already in the synced set, [Sync] is the
    program that returns success at once: it asks no collaborator anything.
    Hence, after any call that returned success, a second call for the same
    item runs with an empty trace and leaves the world as the first call
    left it, so that two calls in a row do what one does. *)
Theorem Sync_synced_is_noop (source : IssueSource) :
  (forall s : IssueSyncer, ID source ∈ synced s -> Sync s source = Ret (s, None)) /\
  (forall (W : Type) (h : Handler W) (w : W) (s s1 : IssueSyncer),
      let first := run h (Sync s source) w in
      result first = Returned (s1, None) ->
      run h (Sync s1 source) (final first) = MkRun [] (final first) (Returned (s1, None)) /\
      run h (do '(s', _) <- Sync s source; Sync s' source) w = first).
Proof.
  assert (forall s : IssueSyncer, ID source ∈ synced s -> Sync s source = Ret (s, None))
    as Hexit by (intros s Hin; unfold Sync; by rewrite decide_True).
  split; [exact Hexit |].
  intros W h w s s1 first Hfirst. subst first.
  assert (ID source ∈ synced s1) as Hin.
  { pose proof (Sync_result _ _ _ _ _ _ Hfirst) as [[-> Hin] | [-> _]]; [done |].
    cbn. set_solver. }
  split; [by rewrite Hexit |].
  rewrite run_bind. cbn zeta. rewrite Hfirst. cbn beta iota.
  rewrite (Hexit s1 Hin).
  cbn. rewrite app_nil_r, <- Hfirst. by destruct (run h (Sync s source) w).
Qed.

Lemma Sync_synced_is_noop_witness :
  Sync (markSynced NewIssueSyncer flaky) flaky = Ret (markSynced NewIssueSyncer flaky, None).
Proof.
  apply (proj1 (Sync_synced_is_noop flaky)).
  apply elem_of_union_l, elem_of_singleton. reflexivity.
Defined.

(** ** The recorded check *)

(** C3.  [isRecorded] answers true exactly when the body of the issue is
    present and contains the token, or some listed comment has a body that
    contains it; comments without a body are passed over, and the answer
    comes without an error.  When the body already contains the token the
    answer is true whatever the listing would give. *)
Theorem isRecorded_iff {W : Type} (h : Handler W) (w : W)
    (obj : MungeObject) (source : IssueSource) :
  let inBody := exists text, Body (MIssue obj) = Some text /\ isSubstring (ID source) text in
  let r := run h (isRecorded obj source) w in
  (inBody -> result r = Returned (true, None)) /\
  (forall comments, (h _ (ListComments obj) w).1 = inr comments ->
     exists recorded,
       result r = Returned (recorded, None) /\
       (recorded = true <->
        inBody \/
        exists c text, c ∈ comments /\ CommentBody c = Some text /\
                       isSubstring (ID source) text)).
Proof.
  cbn zeta. rewrite isRecorded_run. split.
  - intros Hb. apply containsID_substring in Hb. by rewrite Hb.
  - intros comments Hl.
    destruct (containsID _ _) eqn:Hb.
    + exists true. split; [done |]. split; [| done].
      intros _. left. by apply containsID_substring.
    + cbn. rewrite Hl. exists (commentsRecord comments (ID source)).
      split; [done |]. rewrite commentsRecord_substring. split; [by right |].
      intros [Hin | Hc]; [| done].
      apply containsID_substring in Hin. congruence.
Qed.

Lemma isRecorded_iff_witness :
  exists recorded,
    result (run mock (isRecorded (snapshot 5 (openIssue "a")) flaky) commented)
    = Returned (recorded, None).
Proof.
  destruct (proj2 (isRecorded_iff mock commented (snapshot 5 (openIssue "a")) flaky)
              [ {| CommentBody := None |};
                {| CommentBody := Some "seen in flaky-test-x-v1 again" |} ])
    as [recorded [Hr _]].
  - vm_compute. reflexivity.
  - exists recorded. exact Hr.
Defined.

(** ** The synced set *)

(** C8.  When [Sync] returns an error the syncer is as it was before the
    call, so the same call is made again next time; the token is added only
    when [Sync] returns success. *)
Theorem Sync_failure_leaves_synced {W : Type} (h : Handler W) (w : W)
    (s s' : IssueSyncer) (source : IssueSource) (e : option error) :
  result (run h (Sync s source) w) = Returned (s', e) ->
  (forall err, e = Some err -> s' = s /\ Sync s' source = Sync s source) /\
  (e = None -> synced s' = {[ID source]} ∪ synced s).
Proof.
  intros Hr. apply Sync_result in Hr. split.
  - intros err ->. by destruct Hr as [-> _].
  - intros ->. destruct Hr as [[-> Hin] | [-> _]]; [| done].
    symmetry. apply subseteq_union_1_L. by apply singleton_subseteq_l.
Qed.

Lemma Sync_failure_leaves_synced_witness :
  let r := run mock (Sync NewIssueSyncer flaky) (withFaults w573 [Some boom]) in
  result r = Returned (NewIssueSyncer, Some (fetchError 5 boom)) /\
  NewIssueSyncer = NewIssueSyncer /\
  Sync NewIssueSyncer flaky = Sync NewIssueSyncer flaky.
Proof.
  assert (result (run mock (Sync NewIssueSyncer flaky) (withFaults w573 [Some boom]))
          = Returned (NewIssueSyncer, Some (fetchError 5 boom))) as Hr
    by (vm_compute; reflexivity).
  split; [exact Hr |].
  exact (proj1 (Sync_failure_leaves_synced mock _ _ _ _ _ Hr) (fetchError 5 boom) eq_refl).
Defined.

(** ** The guard on posted text *)

Section Guard.
Context {W : Type} (h : Handler W).

(** A property of every event of discovery, of every close and of every
    event of the two endings holds of every event of [Sync]. *)
Lemma Sync_trace_Forall (P : Event -> Prop) (s : IssueSyncer)
    (source : IssueSource) (w : W) :
  Forall P (trace (run h (findPreviousIssues source) w)) ->
  (forall ev, is_Some (closed ev) -> P ev) ->
  (forall obj w', Forall P (trace (run h (updateIssue obj source) w'))) ->
  (forall w', Forall P (trace (run h (createIssue source) w'))) ->
  (forall n x, P (Ev (Created (Title source) n) x)) ->
  Forall P (trace (run h (Sync s source) w)).
Proof.
  intros Hread Hclose Hupd Hnew Hcreated.
  destruct (decide (ID source ∈ synced s)) as [Hin|Hnot].
  { unfold Sync. rewrite decide_True by done. constructor. }
  rewrite Sync_run by done. cbn zeta.
  destruct (result (run h (findPreviousIssues source) w))
    as [[[found updatable] [err|]]|v]; [done | | done].
  pose proof (closeDups_closes h updatable
                (final (run h (findPreviousIssues source) w))) as [_ Hc].
  apply (Forall_impl _ _ _ Hc) in Hclose.
  repeat case_match; cbn [trace];
    repeat (apply Forall_app; split); auto.
Qed.

End Guard.


(** C6.  Every text [Sync] posts, as a comment or as the body of a new
    issue, contains the token of the item.  The check sits in [updateIssue]
    and [createIssue]: with a text that lacks the token they panic before
    any call, and [Sync], arrived at that ending, panics as well, having
    posted nothing; the failure is a panic, not a returned error. *)
Theorem Sync_guards_token {W : Type} (h : Handler W) (w : W)
    (s : IssueSyncer) (source : IssueSource) :
  let r := run h (Sync s source) w in
  let fatal newIssue := programmerError (SourceBody source newIssue) (ID source) in
  Forall (fun ev => forall text, posted ev = Some text ->
                                 strings.Contains text (ID source) = true) (trace r) /\
  (forall obj, strings.Contains (SourceBody source false) (ID source) = false ->
               updateIssue obj source = Panic (fatal false)) /\
  (strings.Contains (SourceBody source true) (ID source) = false ->
   createIssue source = Panic (fatal true)) /\
  (forall found updatable,
      let d := run h (findPreviousIssues source) w in
      let c := run h (closeDups updatable) (final d) in
      ID source ∉ synced s ->
      result d = Returned (found, updatable, None) ->
      result c = Returned None ->
      found = false ->
      (forall obj rest, updatable = obj :: rest ->
         strings.Contains (SourceBody source false) (ID source) = false ->
         r = MkRun (trace d ++ trace c) (final c) (Panicked (fatal false))) /\
      (updatable = [] ->
         strings.Contains (SourceBody source true) (ID source) = false ->
         r = MkRun (trace d ++ trace c) (final c) (Panicked (fatal true)))).
Proof.
  cbn zeta. split; [| split; [| split]].
  - apply Sync_trace_Forall.
    + eapply Forall_impl; [apply findPreviousIssues_reading |].
      intros ev Hev. apply reading_quiet in Hev as (_ & -> & _). done.
    + intros ev Hev. apply closed_quiet in Hev as (-> & _). done.
    + intros obj w'. eapply Forall_impl; [apply updateIssue_trace |].
      by intros ev (_ & _ & Hp).
    + intros w'. eapply Forall_impl; [apply createIssue_trace |].
      by intros ev (_ & _ & Hp).
    + done.
  - intros obj Hc. unfold updateIssue. by rewrite Hc.
  - intros Hc. unfold createIssue. by rewrite Hc.
  - intros found updatable Hnot Hd Hc ->. rewrite Sync_run by done. cbn zeta.
    rewrite Hd, Hc. split.
    + intros obj rest -> Hbody. rewrite updateIssue_run, Hbody. cbn.
      by rewrite app_nil_r.
    + intros -> Hbody. rewrite createIssue_run, Hbody. cbn.
      by rewrite app_nil_r.
Qed.

Lemma Sync_guards_token_witness :
  updateIssue (snapshot 5 (openIssue "a")) careless
  = Panic (programmerError "Again" "flaky-test-x-v1").
Proof.
  apply (proj1 (proj2 (Sync_guards_token mock w573 NewIssueSyncer careless))).
  vm_compute. reflexivity.
Defined.

(** ** Failures of the collaborators *)

Section ListingFailure.
Context {W : Type} (h : Handler W).

Lemma findPreviousIssues_listFailure (source : IssueSource) (w : W)
    (ev : Event) (obj : MungeObject) (err : error) :
  let d := run h (findPreviousIssues source) w in
  ev ∈ trace d -> listFailure ev = Some (obj, err) ->
  (exists n, result d = Returned (false, [], Some (checkError source n (listingError obj err)))) /\
  last (trace d) = Some ev.
Proof.
  cbn zeta. rewrite findPreviousIssues_run. cbn [trace result]. intros Hin Hev.
  apply elem_of_cons in Hin as [-> | Hin]; [done |].
  destruct (findPreviousIssues_loop_listFailure h _ _ _ _ _ _ _ _ Hin Hev)
    as [Hres Hlast].
  split; [done |]. by rewrite last_cons, Hlast.
Qed.

End ListingFailure.

(** C7.  A comment listing that fails while a candidate is checked ends the
    call: [Sync] returns an error that wraps the failure, the failed listing
    is the last request it made, and the syncer is unchanged. *)
Theorem Sync_listing_failure_aborts {W : Type} (h : Handler W) (w : W)
    (s : IssueSyncer) (source : IssueSource) (obj : MungeObject) (err : error) :
  let r := run h (Sync s source) w in
  Ev (ListComments obj) (inl err) ∈ trace r ->
  (exists n, result r = Returned (s, Some (checkError source n (listingError obj err)))) /\
  last (trace r) = Some (Ev (ListComments obj) (inl err)).
Proof.
  cbn zeta. intros Hin.
  assert (listFailure (Ev (ListComments obj) (inl err)) = Some (obj, err)) as Hev by done.
  destruct (decide (ID source ∈ synced s)) as [Hs|Hnot].
  { unfold Sync in Hin. rewrite decide_True in Hin by done. by apply elem_of_nil in Hin. }
  destruct (result (run h (findPreviousIssues source) w))
    as [[[found updatable] [e|]]|v] eqn:Hd.
  - rewrite Sync_run in Hin |- * by done. cbn zeta in Hin |- *.
    rewrite Hd in Hin |- *. cbn [trace result] in Hin |- *.
    destruct (findPreviousIssues_listFailure h _ _ _ _ _ Hin Hev) as [[n Hres] Hlast].
    split; [| done]. exists n. rewrite Hd in Hres. by injection Hres as _ _ ->.
  - exfalso.
    assert (Forall (fun ev => listFailure ev = None) (trace (run h (Sync s source) w)))
      as Hall.
    { apply Sync_trace_Forall.
      - by apply findPreviousIssues_ok in Hd as [_ Hd].
      - intros ev Hc. by apply closed_quiet in Hc as (_ & -> & _).
      - intros o w'. eapply Forall_impl; [apply updateIssue_trace |].
        by intros ev (_ & Hl & _).
      - intros w'. eapply Forall_impl; [apply createIssue_trace |].
        by intros ev (_ & Hl & _).
      - done. }
    rewrite Forall_forall in Hall. apply Hall in Hin. congruence.
  - destruct (findPreviousIssues_returns h source w) as [x Hx]. congruence.
Qed.

Lemma Sync_listing_failure_aborts_witness :
  last (trace (run mock (Sync NewIssueSyncer flaky) (withFaults w573 [None; Some boom])))
  = Some (Ev (ListComments (snapshot 5 (openIssue "a"))) (inl boom)).
Proof.
  apply (Sync_listing_failure_aborts mock (withFaults w573 [None; Some boom])
           NewIssueSyncer flaky (snapshot 5 (openIssue "a")) boom).
  vm_compute. do 2 apply list_elem_of_further. apply list_elem_of_here.
Defined.

(** ** The three endings *)



(** ** Closing the duplicates *)





(** ** [Sync] against the tracker *)

Lemma popFault_world (w w' : World) (f : option error) :
  popFault w = (f, w') ->
  tracker w' = tracker w /\ lookupIndex w' = lookupIndex w.
Proof. unfold popFault. destruct (faults w); by intros [= <- <-]. Qed.


(** Discovery against the tracker: when it succeeds the tracker and the
    index are as before, every candidate exists, [found] tells whether some
    candidate mentions the token, and the updatable issues are the
    snapshots of the open candidates. *)
Lemma mock_discovery_loop (source : IssueSource) (l : list Z)
    (found0 : bool) (upd0 : list MungeObject) (w : World)
    (found : bool) (upd : list MungeObject) :
  let r := run mock (findPreviousIssues_loop source l found0 upd0) w in
  result r = Returned (found, upd, None) ->
  tracker (final r) = tracker w /\ lookupIndex (final r) = lookupIndex w /\
  upd = upd0 ++ List.filter isOpen (snapshots (tracker w) l) /\
  found = found0 || existsb (recordedIn (tracker w) (ID source)) l /\
  Forall (fun n => is_Some (tracker w !! n)) l.
Proof.
  revert found0 upd0 w. induction l as [|n l IH]; intros found0 upd0 w; cbn zeta.
  - intros [= <- <-]. cbn. by rewrite app_nil_r, orb_false_r.
  - rewrite findPreviousIssues_loop_cons. cbn zeta. cbn [mock].
    destruct (popFault w) as [[e|] w1] eqn:Hp; [done |].
    apply popFault_world in Hp as [Ht Hl].
    destruct (tracker w1 !! n) as [ti|] eqn:Hn; [| done]. cbn [fst snd].
    rewrite Ht in Hn.
    assert (snapshots (tracker w) (n :: l) = snapshot n ti :: snapshots (tracker w) l)
      as Hsnap by (unfold snapshots; by rewrite omap_cons, Hn).
    assert (recordedIn (tracker w) (ID source) n
            = containsID (tiBody ti) (ID source) || commentsRecord (tiComments ti) (ID source))
      as Hrec by (unfold recordedIn; by rewrite Hn).
    rewrite Hsnap. cbn [existsb List.filter]. rewrite Hrec.
    change (Body (MIssue (snapshot n ti))) with (tiBody ti).
    destruct (containsID (tiBody ti) (ID source)) eqn:Hb; cbn [result final trace].
    + intros Hr. destruct (IH _ _ _ Hr) as (Ht' & Hl' & Hu & Hf & Hall).
      rewrite Ht in Ht', Hu, Hf, Hall. rewrite Hl in Hl'.
      split; [done |]. split; [done |]. split; [| split].
      * rewrite Hu. destruct (isOpen _); [by rewrite <- app_assoc | done].
      * rewrite Hf. cbn. by rewrite orb_true_r.
      * constructor; [by eexists | done].
    + destruct (popFault w1) as [[e|] w2] eqn:Hp2; [done |].
      apply popFault_world in Hp2 as [Ht2 Hl2]. cbn [fst snd result final trace].
      change (Number (MIssue (snapshot n ti))) with n.
      rewrite Ht2, Ht, Hn. cbn [from_option].
      intros Hr. destruct (IH _ _ _ Hr) as (Ht' & Hl' & Hu & Hf & Hall).
      rewrite Ht2, Ht in Ht', Hu, Hf, Hall. rewrite Hl2, Hl in Hl'.
      split; [done |]. split; [done |]. split; [| split].
      * rewrite Hu. destruct (isOpen _); [by rewrite <- app_assoc | done].
      * rewrite Hf. cbn. apply found_step.
      * constructor; [by eexists | done].
Qed.

Lemma openIn_alter_close (t : gmap Z TrackingIssue) (k : Z) (msg : string) (n : Z) :
  openIn (alter (fun ti => close (addComment msg ti)) k t) n = true ->
  openIn t n = true /\ n <> k.
Proof.
  unfold openIn. destruct (decide (k = n)) as [->|Hne].
  - rewrite lookup_alter_eq. by destruct (t !! n).
  - by rewrite lookup_alter_ne.
Qed.

Lemma openIn_alter_comment (t : gmap Z TrackingIssue) (k : Z) (msg : string) (n : Z) :
  openIn (alter (addComment msg) k t) n = openIn t n.
Proof.
  unfold openIn. destruct (decide (k = n)) as [->|Hne].
  - rewrite lookup_alter_eq. by destruct (t !! n).
  - by rewrite lookup_alter_ne.
Qed.

(** Closing the dups against the tracker: on success the index is as
    before, and an issue open afterwards was open before and is none of the
    dups. *)
Lemma mock_markAsDups (dups : list MungeObject) (ofNumber : Z) (w : World) :
  let r := run mock (markAsDups dups ofNumber) w in
  result r = Returned None ->
  lookupIndex (final r) = lookupIndex w /\
  forall n, openIn (tracker (final r)) n = true ->
            openIn (tracker w) n = true /\ n ∉ map (fun o => Number (MIssue o)) dups.
Proof.
  revert w. induction dups as [|dup dups IH]; intros w; cbn zeta.
  - intros _. split; [done |]. intros n Hn. split; [done |]. apply not_elem_of_nil.
  - cbn [markAsDups]. rewrite run_bind, run_call. cbn [mock].
    destruct (popFault w) as [[e|] w1] eqn:Hp; cbn; [done |].
    apply popFault_world in Hp as [Ht Hl].
    intros Hr.
    destruct (result (run mock (markAsDups dups ofNumber) _)) as [[e|]|v] eqn:Hrest;
      try done.
    destruct (IH _ Hrest) as [Hl' Hopen]. cbn in Hl'.
    split; [congruence |].
    intros n Hn. apply Hopen in Hn as [Hn Hnotin]. cbn in Hn.
    apply openIn_alter_close in Hn as [Hn Hne]. rewrite Ht in Hn.
    split; [done |]. cbn. rewrite not_elem_of_cons. done.
Qed.

Lemma snapshots_open (t : gmap Z TrackingIssue) (l : list Z) :
  map (fun o => Number (MIssue o)) (List.filter isOpen (snapshots t l))
  = List.filter (openIn t) l.
Proof.
  induction l as [|n l IH]; [done |].
  unfold snapshots. rewrite omap_cons. fold (snapshots t l).
  cbn [List.filter]. unfold openIn at 1.
  destruct (t !! n) as [ti|]; cbn [fmap option_fmap option_map List.filter]; [| done].
  destruct (isOpen (snapshot n ti)); cbn; by rewrite IH.
Qed.

(** What a successful call for a token not yet synced leaves open: either no
    candidate was open, or the index is as before and every issue open
    afterwards was open before and is not one of the open candidates after
    the first. *)
Lemma mock_Sync_open (w : World) (s s' : IssueSyncer) (source : IssueSource) :
  let r := run mock (Sync s source) w in
  let l := candidates w (Title source) in
  ID source ∉ synced s ->
  result r = Returned (s', None) ->
  List.filter (openIn (tracker w)) l = [] \/
  exists kept dups,
    List.filter (openIn (tracker w)) l = kept :: dups /\
    lookupIndex (final r) = lookupIndex w /\
    forall n, openIn (tracker (final r)) n = true ->
              openIn (tracker w) n = true /\ n ∉ dups.
Proof.
  cbn zeta. intros Hnot. rewrite Sync_run by done. cbn zeta.
  rewrite findPreviousIssues_run. cbn [mock fst snd trace final result].
  destruct (result (run mock (findPreviousIssues_loop source _ false []) w))
    as [[[found updatable] [err|]]|v] eqn:Hd; [done | | done].
  apply mock_discovery_loop in Hd as (Ht & Hl & Hu & _ & _).
  rewrite app_nil_l in Hu.
  pose proof (snapshots_open (tracker w) (candidates w (Title source))) as Hopen.
  rewrite <- Hu in Hopen. clear Hu.
  rewrite closeDups_unfold.
  destruct updatable as [|kept [|dup dups]].
  - intros _. by left.
  - intros Hr. right. exists (Number (MIssue kept)), []. split; [done |].
    cbn [run result final trace] in Hr |- *.
    destruct found; cbn [final] in Hr |- *.
    + split; [done |]. intros n Hn. rewrite Ht in Hn.
      split; [done | apply not_elem_of_nil].
    + rewrite updateIssue_run in Hr |- *.
      destruct (strings.Contains _ _); [| done]. cbn [mock fst snd final result] in Hr |- *.
      destruct (popFault _) as [[e|] w1] eqn:Hp; [done |].
      apply popFault_world in Hp as [Ht1 Hl1]. cbn.
      split; [congruence |]. intros n Hn.
      rewrite openIn_alter_comment, Ht1, Ht in Hn.
      split; [done | apply not_elem_of_nil].
  - destruct (result (run mock (markAsDups (dup :: dups) _) _)) as [[e|]|v] eqn:Hc;
      [done | | done].
    apply mock_markAsDups in Hc as [Hlc Hcl].
    intros Hr. right.
    exists (Number (MIssue kept)), (map (fun o => Number (MIssue o)) (dup :: dups)).
    split; [done |].
    destruct found; cbn [final] in Hr |- *.
    + split; [congruence |]. intros n Hn. apply Hcl in Hn as [Hn Hnotin].
      rewrite Ht in Hn. done.
    + rewrite updateIssue_run in Hr |- *.
      destruct (strings.Contains _ _); [| done]. cbn [mock fst snd final result] in Hr |- *.
      destruct (popFault _) as [[e|] w1] eqn:Hp; [done |].
      apply popFault_world in Hp as [Ht1 Hl1]. cbn.
      split; [congruence |]. intros n Hn.
      rewrite openIn_alter_comment, Ht1 in Hn. apply Hcl in Hn as [Hn Hnotin].
      rewrite Ht in Hn. done.
Qed.

(** ** Open issues after a call *)

(** C5, as amended.  Against the tracker, when a call of [Sync] for a token
    not yet in the synced set returns success and more than one tracking
    issue was open for the title before the call, at most one is open for
    the title afterwards. *)
Theorem Sync_leaves_one_open (w : World) (s s' : IssueSyncer) (source : IssueSource) :
  let r := run mock (Sync s source) w in
  ID source ∉ synced s ->
  result r = Returned (s', None) ->
  (1 < size (openIssues w (Title source)))%nat ->
  (size (openIssues (final r) (Title source)) <= 1)%nat.
Proof.
  cbn zeta. intros Hnot Hr Hmany.
  destruct (mock_Sync_open w s s' source Hnot Hr)
    as [Hnone | (kept & dups & Hopen & Hl & Hafter)].
  - unfold openIssues in Hmany. rewrite Hnone in Hmany. cbn in Hmany.
    rewrite size_empty in Hmany. lia.
  - transitivity (size ({[kept]} : gset Z)); [| by rewrite size_singleton].
    apply subseteq_size. intros n Hn. apply elem_of_singleton.
    unfold openIssues, candidates in Hn. rewrite Hl in Hn.
    apply elem_of_list_to_set, list_elem_of_In, filter_In in Hn as [Hin Hn].
    apply Hafter in Hn as [Hn Hnotin].
    assert (n ∈ kept :: dups) as Hk.
    { rewrite <- Hopen. apply list_elem_of_In, filter_In. done. }
    apply elem_of_cons in Hk as [-> | Hk]; done.
Qed.

Lemma Sync_leaves_one_open_witness :
  (size (openIssues (final (run mock (Sync NewIssueSyncer flaky) w573)) "Flaky test X") <= 1)%nat.
Proof.
  apply (Sync_leaves_one_open w573 NewIssueSyncer (markSynced NewIssueSyncer flaky) flaky).
  - vm_compute. intros Hin. discriminate Hin.
  - vm_compute. reflexivity.
  - vm_compute. lia.
Defined.

(** C5 as stated fails on the early exit: with the token already in the
    synced set, [Sync] returns success and the three open issues of the
    title stay open. *)
Lemma Sync_synced_leaves_duplicates :
  let s := markSynced NewIssueSyncer flaky in
  let r := run mock (Sync s flaky) w573 in
  result r = Returned (s, None) /\
  (1 < size (openIssues w573 (Title flaky)))%nat /\
  ~ (size (openIssues (final r) (Title flaky)) <= 1)%nat.
Proof.
  cbn zeta. split; [| split].
  - vm_compute. reflexivity.
  - vm_compute. lia.
  - vm_compute. lia.
Qed.

(** ** A token recorded in a closed issue *)






(** ** The text of the returned errors *)

Lemma append_empty_r (s : string) : s +:+ "" = s.
Proof.
  induction s as [|a s IH]; [done |].
  change (String a s +:+ "") with (String a (s +:+ "")). by rewrite IH.
Qed.

Section Messages.
Variable codeptr : string -> N.

Lemma fetchError_text (n : Z) (err : error) :
  Error codeptr (fetchError n err)
  = "error getting object for " +:+ pretty n +:+ ": " +:+ Error codeptr err.
Proof.
  rewrite <- (append_empty_r (Error codeptr err)). reflexivity.
Qed.

Lemma listingError_text (obj : MungeObject) (err : error) :
  Error codeptr (listingError obj err)
  = "error getting comments for " +:+ pretty (Number (MIssue obj)) +:+ ": "
    +:+ Error codeptr err.
Proof.
  rewrite <- (append_empty_r (Error codeptr err)). reflexivity.
Qed.

Lemma checkError_text (source : IssueSource) (n : Z) (err : error) :
  Error codeptr (checkError source n err)
  = "error checking whether item " +:+ ID source +:+ " is recorded in issue "
    +:+ pretty n +:+ ": " +:+ Error codeptr err.
Proof.
  rewrite <- (append_empty_r (Error codeptr err)). reflexivity.
Qed.

Lemma closeError_text (dup : MungeObject) (n : Z) (err : error) :
  Error codeptr (closeError dup n err)
  = "failed to close " +:+ pretty (Number (MIssue dup)) +:+ " as a dup of "
    +:+ pretty n +:+ ": " +:+ Error codeptr err.
Proof.
  rewrite <- (append_empty_r (Error codeptr err)). reflexivity.
Qed.

(** The error of a failed comment names the item by its token. *)
Lemma updateError_text (obj : MungeObject) (source : IssueSource) (err : error) :
  Error codeptr (updateError obj source err)
  = "error updating issue " +:+ pretty (Number (MIssue obj)) +:+ " for "
    +:+ ID source +:+ ": " +:+ Error codeptr err.
Proof.
  rewrite <- (append_empty_r (Error codeptr err)). reflexivity.
Qed.

(** The error of a failed creation prints the code pointer of the method
    value [source.ID]; the item plays no part in it. *)
Lemma createError_text (err : error) :
  Error codeptr (createError err)
  = "error making issue for " +:+ fmtPointer (codeptr "source.ID") +:+ ": "
    +:+ Error codeptr err.
Proof.
  rewrite <- (append_empty_r (Error codeptr err)). reflexivity.
Qed.

End Messages.

Lemma occurs_app (c : ascii) (s t : string) :
  occurs c (s +:+ t) = occurs c s || occurs c t.
Proof.
  induction s as [|a s IH]; [done |].
  change (String a s +:+ t) with (String a (s +:+ t)). cbn [occurs].
  by rewrite IH, orb_assoc.
Qed.

(** A byte of a substring is a byte of the string. *)
Lemma Contains_occurs (s sub : string) (c : ascii) :
  strings.Contains s sub = true -> occurs c sub = true -> occurs c s = true.
Proof.
  intros Hs Hc. apply Contains_substring in Hs as (pre & post & ->).
  rewrite !occurs_app, Hc. by rewrite orb_true_r.
Qed.

(** No rendering of a pointer has a hyphen in it. *)
Lemma fmtPointer_no_hyphen (u : N) : occurs "-" (fmtPointer u) = false.
Proof.
  unfold fmtPointer. destruct (N.eqb u 0); [done |].
  rewrite occurs_app. cbn [occurs orb]. change (occurs "-" "0x") with false.
  cbn [orb]. unfold NilZero.string_of_uint.
  assert (forall d, occurs "-" (NilEmpty.string_of_uint d) = false) as Hd
    by (induction d; cbn; done).
  destruct (N.to_hex_uint u); try apply Hd. done.
Qed.

(** C9, at the failing input.  A new item, nothing filed, and the creation
    fails with [boom]: [Sync] returns an error whose text is
    [error making issue for], the code pointer of the method value, and
    [boom]: with the pointer [0x4a5b60] it reads
    [error making issue for 0x4a5b60: boom], and with no pointer does it
    contain the token of the item.  The error of a failed comment, built the
    same way but with [source.ID()], does. *)
Theorem Sync_create_error_lacks_token (codeptr : string -> N) :
  exists e,
    result (run mock (Sync NewIssueSyncer flaky) (withFaults blank [Some boom]))
    = Returned (NewIssueSyncer, Some e) /\
    Error codeptr e
    = "error making issue for " +:+ fmtPointer (codeptr "source.ID") +:+ ": boom" /\
    Error (fun _ => 4873056%N) e = "error making issue for 0x4a5b60: boom" /\
    strings.Contains (Error codeptr e) (ID flaky) = false /\
    strings.Contains
      (Error codeptr (updateError (snapshot 5 (openIssue "a")) flaky boom)) (ID flaky) = true.
Proof.
  exists (createError boom). split; [| split; [| split; [| split]]].
  - vm_compute. reflexivity.
  - reflexivity.
  - vm_compute. reflexivity.
  - destruct (strings.Contains _ _) eqn:Hc; [| done].
    apply (Contains_occurs _ _ "-") in Hc; [| done].
    rewrite createError_text, !occurs_app, fmtPointer_no_hyphen in Hc.
    done.
  - vm_compute. reflexivity.
Qed.

(** ** The scenarios of the tests *)

(** Three open candidates found in the order 5, 7, 3, none naming the item:
    7 and 3 are closed as duplicates of 5, then 5 is commented on, and only
    5 stays open. *)
Example dedup_keeps_first :
  let r := run mock (Sync NewIssueSyncer flaky) w573 in
  requests (trace r)
  = [ Ev (CloseIssuef (snapshot 7 (openIssue "b")) "This is a duplicate of #5; closing") None;
      Ev (CloseIssuef (snapshot 3 (openIssue "c")) "This is a duplicate of #5; closing") None;
      Ev (WriteComment (snapshot 5 (openIssue "a")) "Again: flaky-test-x-v1") None ] /\
  map (openIn (tracker (final r))) [5; 7; 3] = [true; false; false].
Proof. vm_compute. split; reflexivity. Qed.

(** The close of 7 fails: the call returns the error, 3 is not asked to
    close and is still open, and the token is not marked. *)
Example dedup_failure_stops :
  let r := run mock (Sync NewIssueSyncer flaky)
             (withFaults w573 [None; None; None; None; None; None; Some boom]) in
  requests (trace r)
  = [ Ev (CloseIssuef (snapshot 7 (openIssue "b")) "This is a duplicate of #5; closing")
        (Some boom) ] /\
  result r = Returned (NewIssueSyncer, Some (closeError (snapshot 7 (openIssue "b")) 5 boom)) /\
  map (openIn (tracker (final r))) [5; 7; 3] = [true; true; true].
Proof. vm_compute. repeat split; reflexivity. Qed.

(** Nothing filed for the title: one issue is created with the title, body
    and labels of the item, and registered under the title. *)
Example first_report_creates :
  let r := run mock (Sync NewIssueSyncer flaky) blank in
  let created := snapshot 1 (openIssue "Failed: see flaky-test-x-v1") in
  requests (trace r)
  = [ Ev (NewIssue "Flaky test X" "Failed: see flaky-test-x-v1" ["kind/flake"]) (inr created);
      Ev (Created "Flaky test X" 1) () ] /\
  candidates (final r) "Flaky test X" = [1].
Proof. vm_compute. split; reflexivity. Qed.

(** A first call that fails is done again by the second call. *)
Example failed_call_is_redone :
  let first := run mock (Sync NewIssueSyncer flaky) (withFaults w573 [Some boom]) in
  let second := run mock (Sync NewIssueSyncer flaky) (final first) in
  result first = Returned (NewIssueSyncer, Some (fetchError 5 boom)) /\
  length (requests (trace second)) = 3%nat.
Proof. vm_compute. split; reflexivity. Qed.

(** A number the lookup index lists twice is fetched twice and counts as two
    open candidates: the second is closed as a duplicate of the first, which
    is the same issue, and the comment goes to the closed issue. *)
Example repeated_candidate_closes_itself :
  let r := run mock (Sync NewIssueSyncer flaky) listedTwice in
  requests (trace r)
  = [ Ev (CloseIssuef (snapshot 5 (openIssue "a")) "This is a duplicate of #5; closing") None;
      Ev (WriteComment (snapshot 5 (openIssue "a")) "Again: flaky-test-x-v1") None ] /\
  openIn (tracker (final r)) 5 = false.
Proof. vm_compute. split; reflexivity. Qed.

(** * Further properties of [Sync] *)

(** ** The shape of a call *)

Lemma reading_observed (ev : Event) :
  reading ev = true ->
  registered ev = None /\ filed ev = None /\ creating ev = false.
Proof. by destruct ev as [X []]. Qed.

Lemma closed_observed (ev : Event) (id : string) :
  is_Some (closed ev) ->
  requested ev = None /\ fetchFailure ev = None /\ listed ev = None /\
  registered ev = None /\ filed ev = None /\ creating ev = false /\
  records id ev = false /\ reading ev = false.
Proof. destruct ev as [X []]; by intros [? [=]]. Qed.

Lemma omap_none {A B : Type} (f : A -> option B) (l : list A) :
  Forall (fun x => f x = None) l -> omap f l = [].
Proof. induction 1 as [|x l Hx _ IH]; [done |]. by rewrite omap_cons, Hx. Qed.

Lemma existsb_none {A : Type} (f : A -> bool) (l : list A) :
  Forall (fun x => f x = false) l -> existsb f l = false.
Proof. induction 1 as [|x l Hx _ IH]; [done |]. cbn. by rewrite Hx. Qed.

Lemma Exists_none {A : Type} (P : A -> Prop) (l : list A) :
  Forall (fun x => ~ P x) l -> ~ Exists P l.
Proof.
  intros Hall Hex. apply Exists_exists in Hex as (x & Hin & Hx).
  rewrite Forall_forall in Hall. by apply (Hall x Hin).
Qed.

Lemma Sync_phases {W : Type} (h : Handler W) (s : IssueSyncer) (source : IssueSource)
    (w : W) :
  ID source ∉ synced s ->
  Phases h s source w (trace (run h (Sync s source) w)) (result (run h (Sync s source) w)).
Proof.
  intros Hnot. rewrite Sync_run by done. cbn zeta.
  destruct (findPreviousIssues_returns h source w) as [[[found updatable] err] Hd].
  rewrite Hd. destruct err as [err|]; [by eapply DiscoveryFailed |].
  destruct (closeDups_closes h updatable (final (run h (findPreviousIssues source) w)))
    as [[err Hc] Hcl].
  assert (trace (run h (closeDups updatable) (final (run h (findPreviousIssues source) w)))
          <> [] -> (1 < length updatable)%nat) as Hmany.
  { rewrite closeDups_unfold. destruct updatable as [|kept [|dup dups]]; cbn; [done.. | lia]. }
  rewrite Hc. destruct err as [err|].
  { cbn [trace result]. eapply ClosingFailed; [done.. |].
    revert Hc. rewrite closeDups_unfold.
    destruct updatable as [|kept [|dup dups]]; [done.. |]. cbn. lia. }
  destruct found.
  { cbn [trace result].
    rewrite <- (app_nil_r (trace (run h (closeDups updatable) _))), app_assoc.
    rewrite <- app_assoc. eapply Ended; [done.. |]. by constructor. }
  destruct updatable as [|obj rest].
  - rewrite createIssue_run.
    destruct (strings.Contains (SourceBody source true) (ID source)) eqn:Hbody.
    + cbn zeta. destruct (h _ (NewIssue _ _ _) _) as [[err|obj] w1]; cbn [fst snd result trace].
      * eapply Ended; [done.. |]. by constructor.
      * destruct (h _ (Infof _) _) as [[] w2]. cbn [fst snd result trace].
        destruct (h _ (Created _ _) _) as [[] w3]. cbn [fst snd result trace app].
        eapply Ended; [done.. |]. by constructor.
    + cbn [result trace]. eapply Ended; [done.. |]. by eapply (EndPanicked _ _ _ _ true).
  - rewrite updateIssue_run.
    destruct (strings.Contains (SourceBody source false) (ID source)) eqn:Hbody.
    + cbn zeta. destruct (h _ (Infof _) _) as [[] w1]. cbn [fst snd].
      destruct (h _ (WriteComment _ _) _) as [answer w2]. cbn [fst snd result trace].
      eapply Ended; [done.. |].
      destruct answer; by econstructor.
    + cbn [result trace]. eapply Ended; [done.. |]. by eapply (EndPanicked _ _ _ _ false).
Qed.

Lemma acting_observed (ev : Event) (id : string) :
  reading ev = false ->
  requested ev = None /\ fetchFailure ev = None /\ listed ev = None /\
  fetched ev = None /\ listFailure ev = None /\ records id ev = false.
Proof. by destruct ev as [X []]. Qed.

Lemma Ending_acting (s : IssueSyncer) (source : IssueSource) (found : bool)
    (updatable : list MungeObject) (ending : list Event)
    (res : Result (IssueSyncer * option error)) :
  Ending s source found updatable ending res ->
  Forall (fun ev => reading ev = false /\ closed ev = None) ending.
Proof. destruct 1; by repeat constructor. Qed.

Section Discovery.
Context {W : Type} (h : Handler W).

Ltac turn n w :=
  rewrite findPreviousIssues_loop_cons; cbn zeta;
  let obj := fresh "obj" in
  let w1 := fresh "w" in
  let w2 := fresh "w" in
  let Hbody := fresh "Hbody" in
  destruct (h _ (GetObject n) w) as [[?err|obj] w1]; cbn [fst snd];
  [| destruct (containsID (Body (MIssue obj)) _) eqn:Hbody;
     [| destruct (h _ (ListComments obj) w1) as [[?err|?comments] w2]; cbn [fst snd]]].

(** Discovery fetches the looked-up numbers in order, each once, and all of
    them when it succeeds. *)
Lemma findPreviousIssues_loop_requests (source : IssueSource) (l : list Z)
    (found0 : bool) (upd0 : list MungeObject) (w : W) :
  let r := run h (findPreviousIssues_loop source l found0 upd0) w in
  omap requested (trace r) `prefix_of` l /\
  (forall found upd, result r = Returned (found, upd, None) ->
                     omap requested (trace r) = l).
Proof.
  revert found0 upd0 w. induction l as [|n l IH]; intros found0 upd0 w; cbn zeta.
  - split; [apply prefix_nil | done].
  - turn n w; cbn [result trace]; rewrite ?omap_cons; cbn [requested].
    + split; [apply prefix_cons, prefix_nil | done].
    + destruct (IH true (if isOpen obj then upd0 ++ [obj] else upd0) w0) as [Hp He].
      split; [by apply prefix_cons |]. intros found upd Hr. f_equal. eauto.
    + split; [apply prefix_cons, prefix_nil | done].
    + destruct (IH (if commentsRecord comments (ID source) then true else found0)
                  (if isOpen obj then upd0 ++ [obj] else upd0) w1) as [Hp He].
      split; [by apply prefix_cons |]. intros found upd Hr. f_equal. eauto.
Qed.

(** The comments are listed only of an issue whose body lacks the token. *)
Lemma findPreviousIssues_loop_listed (source : IssueSource) (l : list Z)
    (found0 : bool) (upd0 : list MungeObject) (w : W) :
  Forall (fun ev => forall obj, listed ev = Some obj ->
                                containsID (Body (MIssue obj)) (ID source) = false)
    (trace (run h (findPreviousIssues_loop source l found0 upd0) w)).
Proof.
  revert found0 upd0 w. induction l as [|n l IH]; intros found0 upd0 w.
  - constructor.
  - turn n w; cbn [trace]; repeat (constructor; [cbn; congruence |]); auto.
Qed.

(** A failed fetch ends discovery with its error; a discovery that succeeds
    has seen no fetch fail. *)
Lemma findPreviousIssues_loop_fetchFailure (source : IssueSource) (l : list Z)
    (found0 : bool) (upd0 : list MungeObject) (w : W) :
  let r := run h (findPreviousIssues_loop source l found0 upd0) w in
  (forall found upd, result r = Returned (found, upd, None) ->
                     Forall (fun ev => fetchFailure ev = None) (trace r)) /\
  (forall ev n err, ev ∈ trace r -> fetchFailure ev = Some (n, err) ->
                    result r = Returned (false, [], Some (fetchError n err)) /\
                    last (trace r) = Some ev).
Proof.
  revert found0 upd0 w. induction l as [|n l IH]; intros found0 upd0 w; cbn zeta.
  - split; [constructor |]. intros ev k err Hin. by apply elem_of_nil in Hin.
  - turn n w; cbn [result trace].
    + split; [done |]. intros ev k e Hin Hev.
      apply list_elem_of_singleton in Hin as ->. by injection Hev as <- <-.
    + destruct (IH true (if isOpen obj then upd0 ++ [obj] else upd0) w0) as [Hok Hfail].
      split; [intros found upd Hr; constructor; eauto |].
      intros ev k e Hin Hev. apply elem_of_cons in Hin as [-> | Hin]; [done |].
      destruct (Hfail _ _ _ Hin Hev) as [Hres Hlast]. split; [done |].
      by rewrite last_cons, Hlast.
    + split; [done |]. intros ev k e Hin Hev.
      apply elem_of_cons in Hin as [-> | Hin]; [done |].
      by apply list_elem_of_singleton in Hin as ->.
    + destruct (IH (if commentsRecord comments (ID source) then true else found0)
                  (if isOpen obj then upd0 ++ [obj] else upd0) w1) as [Hok Hfail].
      split; [intros found upd Hr; do 2 (constructor; [done |]); eauto |].
      intros ev k e Hin Hev. apply elem_of_cons in Hin as [-> | Hin]; [done |].
      apply elem_of_cons in Hin as [-> | Hin]; [done |].
      destruct (Hfail _ _ _ Hin Hev) as [Hres Hlast]. split; [done |].
      by rewrite !last_cons, Hlast.
Qed.

(** What follows discovery in a call is no lookup, fetch or listing. *)
Lemma Sync_tail (s : IssueSyncer) (source : IssueSource) (w : W) :
  ID source ∉ synced s ->
  exists tail,
    trace (run h (Sync s source) w) = trace (run h (findPreviousIssues source) w) ++ tail /\
    Forall (fun ev => reading ev = false) tail /\
    (forall s', result (run h (Sync s source) w) = Returned (s', None) ->
                exists found upd,
                  result (run h (findPreviousIssues source) w) = Returned (found, upd, None)).
Proof.
  intros Hnot. pose proof (Sync_phases h s source w Hnot) as Hp.
  inversion Hp as [found upd err Hd Htr Hres
                  | found upd closes err Hd Hcl Hmany Htr Hres
                  | found upd closes ending res Hd Hcl Hmany Hend Htr Hres].
  - exists []. rewrite app_nil_r. split; [done |]. split; [constructor | done].
  - exists closes. split; [done |]. split; [| done].
    eapply Forall_impl; [exact Hcl |]. intros ev Hev.
    by apply (closed_observed ev "") in Hev as (_ & _ & _ & _ & _ & _ & _ & Hev).
  - exists (closes ++ ending). split; [done |]. split; [| by eauto].
    apply Forall_app. split.
    + eapply Forall_impl; [exact Hcl |]. intros ev Hev.
      by apply (closed_observed ev "") in Hev as (_ & _ & _ & _ & _ & _ & _ & Hev).
    + eapply Forall_impl; [by eapply Ending_acting |]. by intros ev [Hev _].
Qed.

End Discovery.

(** ** Failed fetches *)

(** X1.  A fetch that fails ends the call: [Sync] returns the fetch error
    with the number in it, the failed fetch is its last request, the syncer
    is unchanged, and the call has asked for no change. *)
Theorem Sync_fetch_failure_aborts {W : Type} (h : Handler W) (w : W)
    (s : IssueSyncer) (source : IssueSource) (n : Z) (err : error) :
  let r := run h (Sync s source) w in
  Ev (GetObject n) (inl err) ∈ trace r ->
  result r = Returned (s, Some (fetchError n err)) /\
  last (trace r) = Some (Ev (GetObject n) (inl err)) /\
  Forall (fun ev => mutating ev = false) (trace r).
Proof.
  cbn zeta. intros Hin.
  assert (fetchFailure (Ev (GetObject n) (inl err)) = Some (n, err)) as Hev by done.
  destruct (decide (ID source ∈ synced s)) as [Hs|Hnot].
  { unfold Sync in Hin. rewrite decide_True in Hin by done. by apply elem_of_nil in Hin. }
  destruct (Sync_tail h s source w Hnot) as (tail & Htr & Htail & _).
  pose proof (findPreviousIssues_run h source w) as Hrun. cbn zeta in Hrun.
  destruct (findPreviousIssues_loop_fetchFailure h source
              (h _ (AllIssuesForKey (Title source)) w).1 false []
              (h _ (AllIssuesForKey (Title source)) w).2) as [Hok Hfail].
  assert (Ev (GetObject n) (inl err)
          ∈ trace (run h (findPreviousIssues_loop source
                            (h _ (AllIssuesForKey (Title source)) w).1 false [])
                     (h _ (AllIssuesForKey (Title source)) w).2)) as Hloop.
  { rewrite Htr, Hrun in Hin. cbn [trace] in Hin.
    apply elem_of_app in Hin as [Hin | Hin].
    - apply elem_of_cons in Hin as [Heq | Hin]; [| done].
      by rewrite Heq in Hev.
    - rewrite Forall_forall in Htail.
      by destruct (acting_observed _ "" (Htail _ Hin)) as (_ & Hf & _); rewrite Hf in Hev. }
  destruct (Hfail _ _ _ Hloop Hev) as [Hres Hlast].
  assert (result (run h (findPreviousIssues source) w)
          = Returned (false, [], Some (fetchError n err))) as Hd by (by rewrite Hrun).
  pose proof (Sync_run h s source w Hnot) as Hsync. cbn zeta in Hsync.
  rewrite Hd in Hsync. rewrite Hsync. cbn [result trace].
  split; [done |]. split.
  - rewrite Hrun. cbn [trace]. by rewrite last_cons, Hlast.
  - eapply Forall_impl; [apply findPreviousIssues_reading |].
    intros ev Hr. by apply reading_quiet in Hr as (-> & _).
Qed.

Lemma Sync_fetch_failure_aborts_witness :
  result (run mock (Sync NewIssueSyncer flaky) (withFaults w573 [Some boom]))
  = Returned (NewIssueSyncer, Some (fetchError 5 boom)).
Proof.
  apply (Sync_fetch_failure_aborts mock (withFaults w573 [Some boom])
           NewIssueSyncer flaky 5 boom).
  vm_compute. apply list_elem_of_further, list_elem_of_here.
Defined.

(** ** The order of the fetches *)

(** X8.  A call for a token not yet synced starts with the lookup under the
    title of the item; after it, the numbers fetched are a prefix of the
    looked-up numbers, in their order, and all of them when the call returns
    success. *)
Theorem Sync_fetches_in_lookup_order {W : Type} (h : Handler W) (w : W)
    (s : IssueSyncer) (source : IssueSource) :
  let r := run h (Sync s source) w in
  ID source ∉ synced s ->
  exists l rest,
    trace r = Ev (AllIssuesForKey (Title source)) l :: rest /\
    omap requested rest `prefix_of` l /\
    (forall s', result r = Returned (s', None) -> omap requested rest = l).
Proof.
  cbn zeta. intros Hnot.
  destruct (Sync_tail h s source w Hnot) as (tail & Htr & Htail & Hok).
  pose proof (findPreviousIssues_run h source w) as Hrun. cbn zeta in Hrun.
  destruct (findPreviousIssues_loop_requests h source
              (h _ (AllIssuesForKey (Title source)) w).1 false []
              (h _ (AllIssuesForKey (Title source)) w).2) as [Hp He].
  assert (omap requested tail = []) as Hnone.
  { apply omap_none. eapply Forall_impl; [exact Htail |].
    intros ev Hev. by apply (acting_observed ev "") in Hev as (-> & _). }
  exists (h _ (AllIssuesForKey (Title source)) w).1,
    (trace (run h (findPreviousIssues_loop source
                     (h _ (AllIssuesForKey (Title source)) w).1 false [])
              (h _ (AllIssuesForKey (Title source)) w).2) ++ tail).
  split; [by rewrite Htr, Hrun |].
  rewrite omap_app, Hnone, app_nil_r. split; [done |].
  intros s' Hr. destruct (Hok _ Hr) as (found & upd & Hd).
  rewrite Hrun in Hd. eauto.
Qed.

Lemma Sync_fetches_in_lookup_order_witness :
  exists l rest,
    trace (run mock (Sync NewIssueSyncer flaky) w573)
    = Ev (AllIssuesForKey "Flaky test X") l :: rest /\
    omap requested rest `prefix_of` l.
Proof.
  destruct (Sync_fetches_in_lookup_order mock w573 NewIssueSyncer flaky)
    as (l & rest & Htr & Hp & _).
  - vm_compute. intros Hin. discriminate Hin.
  - by exists l, rest.
Defined.

(** ** Listings *)

(** X7.  [Sync] lists the comments only of issues whose body does not
    contain the token: a hit in the body saves the listing. *)
Theorem Sync_lists_only_after_body {W : Type} (h : Handler W) (w : W)
    (s : IssueSyncer) (source : IssueSource) :
  Forall (fun ev => forall obj, listed ev = Some obj ->
                                containsID (Body (MIssue obj)) (ID source) = false)
    (trace (run h (Sync s source) w)).
Proof.
  destruct (decide (ID source ∈ synced s)) as [Hs|Hnot].
  { unfold Sync. rewrite decide_True by done. constructor. }
  destruct (Sync_tail h s source w Hnot) as (tail & -> & Htail & _).
  rewrite findPreviousIssues_run. cbn [trace].
  apply Forall_app. split.
  - constructor; [done |]. apply findPreviousIssues_loop_listed.
  - eapply Forall_impl; [exact Htail |]. intros ev Hev obj Hl.
    apply (acting_observed ev "") in Hev as (_ & _ & Hn & _). congruence.
Qed.

(** ** What a call posts, registers and closes *)

Section Requests.
Context {W : Type} (h : Handler W).

Lemma discovery_silent (source : IssueSource) (w : W) :
  let tr := trace (run h (findPreviousIssues source) w) in
  omap posted tr = [] /\ omap registered tr = [] /\ omap filed tr = [] /\
  Forall (fun ev => closed ev = None) tr /\
  Forall (fun ev => creating ev = false) tr /\
  Forall (fun ev => mutating ev = false) tr.
Proof.
  cbn zeta. pose proof (findPreviousIssues_reading h source w) as Hr.
  repeat split; try apply omap_none; (eapply Forall_impl; [exact Hr |]);
    intros ev Hev; pose proof (reading_quiet ev Hev); pose proof (reading_observed ev Hev);
    tauto.
Qed.

Lemma closes_silent (id : string) (closes : list Event) :
  Forall (fun ev => is_Some (closed ev)) closes ->
  omap posted closes = [] /\ omap registered closes = [] /\ omap filed closes = [] /\
  omap fetched closes = [] /\ existsb (records id) closes = false /\
  Forall (fun ev => creating ev = false) closes /\
  Forall (fun ev => fetchFailure ev = None /\ listFailure ev = None) closes.
Proof.
  intros Hc.
  repeat split; try apply omap_none; try apply existsb_none;
    (eapply Forall_impl; [exact Hc |]);
    intros ev Hev; pose proof (closed_quiet ev Hev); pose proof (closed_observed ev id Hev);
    tauto.
Qed.

Lemma tail_silent (id : string) (tail : list Event) :
  Forall (fun ev => reading ev = false) tail ->
  omap fetched tail = [] /\ omap requested tail = [] /\
  existsb (records id) tail = false /\
  Forall (fun ev => fetchFailure ev = None /\ listFailure ev = None) tail.
Proof.
  intros Ht.
  repeat split; try apply omap_none; try apply existsb_none;
    (eapply Forall_impl; [exact Ht |]);
    intros ev Hev; pose proof (acting_observed ev id Hev); tauto.
Qed.

(** The phases of a call, as alternatives. *)
Lemma Sync_cases (s : IssueSyncer) (source : IssueSource) (w : W) :
  let d := run h (findPreviousIssues source) w in
  let r := run h (Sync s source) w in
  ID source ∉ synced s ->
  (exists found upd err,
      result d = Returned (found, upd, Some err) /\
      trace r = trace d /\ result r = Returned (s, Some err)) \/
  (exists found upd closes ending,
      result d = Returned (found, upd, None) /\
      Forall (fun ev => is_Some (closed ev)) closes /\
      (closes <> [] -> (1 < length upd)%nat) /\
      trace r = trace d ++ closes ++ ending /\
      ((ending = [] /\ exists err, result r = Returned (s, Some err)) \/
       Ending s source found upd ending (result r))).
Proof.
  cbn zeta. intros Hnot. pose proof (Sync_phases h s source w Hnot) as Hp.
  remember (trace (run h (Sync s source) w)) as tr eqn:Htr.
  remember (result (run h (Sync s source) w)) as res eqn:Hres.
  destruct Hp as [found upd err Hd
                 | found upd closes err Hd Hcl Hmany
                 | found upd closes ending res Hd Hcl Hmany Hend].
  - left. by exists found, upd, err.
  - right. exists found, upd, closes, []. rewrite app_nil_r.
    repeat split; [done.. |]. left. split; [done | by exists err].
  - right. exists found, upd, closes, ending. repeat split; [done.. |]. by right.
Qed.

End Requests.

(** X3.  A call of [Sync] posts at most one text: one comment or one new
    issue, never both and never two. *)
Theorem Sync_posts_at_most_once {W : Type} (h : Handler W) (w : W)
    (s : IssueSyncer) (source : IssueSource) :
  (length (omap posted (trace (run h (Sync s source) w))) <= 1)%nat.
Proof.
  destruct (decide (ID source ∈ synced s)) as [Hs|Hnot].
  { unfold Sync. rewrite decide_True by done. cbn. lia. }
  destruct (discovery_silent h source w) as (Hd & _).
  destruct (Sync_cases h s source w Hnot)
    as [(found & upd & err & _ & -> & _)
       | (found & upd & closes & ending & _ & Hcl & _ & -> & Hend)].
  - rewrite Hd. cbn. lia.
  - destruct (closes_silent "" closes Hcl) as (Hc & _).
    rewrite !omap_app, Hd, Hc.
    destruct Hend as [[-> _] | Hend]; [cbn; lia |]. destruct Hend; cbn; lia.
Qed.

(** X4.  What [Sync] registers with the issue finder is what it has
    created: a successful creation is registered once, under the title it
    was created with and with the number the tracker returned, and nothing
    else is ever registered. *)
Theorem Sync_registers_what_it_creates {W : Type} (h : Handler W) (w : W)
    (s : IssueSyncer) (source : IssueSource) :
  omap registered (trace (run h (Sync s source) w))
  = omap filed (trace (run h (Sync s source) w)).
Proof.
  destruct (decide (ID source ∈ synced s)) as [Hs|Hnot].
  { unfold Sync. by rewrite decide_True. }
  destruct (discovery_silent h source w) as (_ & Hdr & Hdf & _).
  destruct (Sync_cases h s source w Hnot)
    as [(found & upd & err & _ & -> & _)
       | (found & upd & closes & ending & _ & Hcl & _ & -> & Hend)].
  - by rewrite Hdr, Hdf.
  - destruct (closes_silent "" closes Hcl) as (_ & Hcr & Hcf & _).
    rewrite !omap_app, Hdr, Hdf, Hcr, Hcf.
    destruct Hend as [[-> _] | Hend]; [done |]. by destruct Hend.
Qed.

(** X5.  [Sync] asks to close an issue only when discovery has fetched more
    than one open issue. *)
Theorem Sync_closes_only_duplicates {W : Type} (h : Handler W) (w : W)
    (s : IssueSyncer) (source : IssueSource) :
  let r := run h (Sync s source) w in
  Exists (fun ev => is_Some (closed ev)) (trace r) ->
  (1 < length (List.filter isOpen (omap fetched (trace r))))%nat.
Proof.
  cbn zeta. intros Hex.
  destruct (decide (ID source ∈ synced s)) as [Hs|Hnot].
  { unfold Sync in Hex. rewrite decide_True in Hex by done. by apply Exists_nil in Hex. }
  destruct (discovery_silent h source w) as (_ & _ & _ & Hdc & _).
  assert (forall l : list Event, Forall (fun ev => closed ev = None) l ->
                    ~ Exists (fun ev => is_Some (closed ev)) l) as Hno.
  { intros l Hl. apply Exists_none. eapply Forall_impl; [exact Hl |].
    intros ev -> [x Hx]. discriminate Hx. }
  destruct (Sync_tail h s source w Hnot) as (tail & Htail & Hact & _).
  destruct (tail_silent "" tail Hact) as (Hft & _).
  rewrite Htail, omap_app, Hft, app_nil_r.
  destruct (Sync_cases h s source w Hnot)
    as [(found & upd & err & _ & Htr & _)
       | (found & upd & closes & ending & Hd & Hcl & Hmany & Htr & Hend)].
  - rewrite Htr in Hex. by apply Hno in Hex.
  - apply findPreviousIssues_ok in Hd as [<- _]. apply Hmany. intros ->.
    rewrite Htr in Hex. apply Exists_app in Hex as [Hex | Hex]; [by apply Hno in Hex |].
    cbn in Hex. apply Hno in Hex; [done |].
    destruct Hend as [[-> _] | Hend]; [constructor |].
    eapply Forall_impl; [by eapply Ending_acting |]. by intros ev [_ Hev].
Qed.

Lemma Sync_closes_only_duplicates_witness :
  (1 < length (List.filter isOpen
                 (omap fetched (trace (run mock (Sync NewIssueSyncer flaky) w573)))))%nat.
Proof.
  apply (Sync_closes_only_duplicates mock w573 NewIssueSyncer flaky).
  vm_compute. do 7 apply Exists_cons_tl. apply Exists_cons_hd. by eexists.
Defined.

(** X6.  [Sync] posts only for an item that discovery has not found
    recorded: when a call posts a comment or an issue, no fetched body and
    no listed comment of the call contains the token.  And it asks for a new
    issue only when no fetched issue is open. *)
Theorem Sync_posts_only_unrecorded {W : Type} (h : Handler W) (w : W)
    (s : IssueSyncer) (source : IssueSource) :
  let r := run h (Sync s source) w in
  Exists (fun ev => is_Some (posted ev)) (trace r) ->
  existsb (records (ID source)) (trace r) = false /\
  (Exists (fun ev => creating ev = true) (trace r) ->
   List.filter isOpen (omap fetched (trace r)) = []).
Proof.
  cbn zeta. intros Hex.
  destruct (decide (ID source ∈ synced s)) as [Hs|Hnot].
  { unfold Sync in Hex. rewrite decide_True in Hex by done. by apply Exists_nil in Hex. }
  destruct (discovery_silent h source w) as (Hdp & _ & _ & _ & Hdc & _).
  destruct (Sync_tail h s source w Hnot) as (tail & Htail & Hact & _).
  destruct (tail_silent (ID source) tail Hact) as (Hft & _ & Hrt & _).
  rewrite Htail, existsb_app, Hrt, orb_false_r, omap_app, Hft, app_nil_r.
  assert (forall l : list Event, omap posted l = [] ->
                    ~ Exists (fun ev => is_Some (posted ev)) l) as Hno.
  { intros l Hl Hx. apply Exists_exists in Hx as (ev & Hin & [text Hev]).
    assert (text ∈ omap posted l) as Ht by (apply list_elem_of_omap; eauto).
    rewrite Hl in Ht. by apply elem_of_nil in Ht. }
  assert (forall l : list Event, Forall (fun ev => creating ev = false) l ->
                    ~ Exists (fun ev => creating ev = true) l) as Hnc.
  { intros l Hl. apply Exists_none. eapply Forall_impl; [exact Hl |].
    intros ev ->. done. }
  destruct (Sync_cases h s source w Hnot)
    as [(found & upd & err & _ & Htr & _)
       | (found & upd & closes & ending & Hd & Hcl & _ & Htr & Hend)].
  - rewrite Htr in Hex. by apply Hno in Hex.
  - destruct (closes_silent (ID source) closes Hcl) as (Hcp & _ & _ & _ & _ & Hcc & _).
    rewrite Htr in Hex.
    apply Exists_app in Hex as [Hex | Hex]; [by apply Hno in Hex |].
    apply Exists_app in Hex as [Hex | Hex]; [by apply Hno in Hex |].
    pose proof (findPreviousIssues_found h source w found upd Hd) as Hf.
    pose proof (findPreviousIssues_ok h source w found upd Hd) as [Hu _].
    rewrite <- Hf, <- Hu.
    destruct Hend as [[-> _] | Hend]; [by apply Exists_nil in Hex |].
    destruct Hend as [-> | nw -> | obj rest answer -> -> | err -> -> | obj -> ->];
      try (by apply Exists_nil in Hex); (split; [done |]); try done.
    intros Hcr. exfalso.
    assert (tail = closes ++ [Ev (Infof (updateLog obj source)) ();
                              Ev (WriteComment obj (SourceBody source false)) answer])
      as -> by (eapply app_inv_head; rewrite <- Htail; exact Htr).
    apply Exists_app in Hcr as [Hcr | Hcr]; [by apply Hnc in Hcr |].
    apply Exists_app in Hcr as [Hcr | Hcr]; [by apply Hnc in Hcr |].
    apply Hnc in Hcr; [done |]. by repeat constructor.
Qed.

Lemma Sync_posts_only_unrecorded_witness :
  existsb (records "flaky-test-x-v1") (trace (run mock (Sync NewIssueSyncer flaky) w573))
  = false.
Proof.
  apply (Sync_posts_only_unrecorded mock w573 NewIssueSyncer flaky).
  vm_compute. do 10 apply Exists_cons_tl. apply Exists_cons_hd. by eexists.
Defined.

(** ** Changes come after discovery *)

(** X10.  A call of [Sync] that asks for any change (a close, a comment, a
    creation or a registration) has fetched every looked-up number before,
    and no fetch and no listing of the call has failed: nothing is changed
    on a partial view of the candidates. *)
Theorem Sync_changes_after_discovery {W : Type} (h : Handler W) (w : W)
    (s : IssueSyncer) (source : IssueSource) :
  let r := run h (Sync s source) w in
  Exists (fun ev => mutating ev = true) (trace r) ->
  Forall (fun ev => fetchFailure ev = None /\ listFailure ev = None) (trace r) /\
  exists l rest,
    trace r = Ev (AllIssuesForKey (Title source)) l :: rest /\
    omap requested rest = l.
Proof.
  cbn zeta. intros Hex.
  destruct (decide (ID source ∈ synced s)) as [Hs|Hnot].
  { unfold Sync in Hex. rewrite decide_True in Hex by done. by apply Exists_nil in Hex. }
  destruct (discovery_silent h source w) as (_ & _ & _ & _ & _ & Hdm).
  destruct (Sync_tail h s source w Hnot) as (tail & Htail & Hact & _).
  destruct (tail_silent "" tail Hact) as (_ & Hrq & _ & Hfl).
  pose proof (findPreviousIssues_run h source w) as Hrun. cbn zeta in Hrun.
  destruct (Sync_cases h s source w Hnot)
    as [(found & upd & err & _ & Htr & _)
       | (found & upd & closes & ending & Hd & _)].
  - rewrite Htr in Hex. exfalso. revert Hex. apply Exists_none.
    eapply Forall_impl; [exact Hdm |]. intros ev ->. done.
  - pose proof (findPreviousIssues_ok h source w found upd Hd) as [_ Hlist].
    rewrite Hrun in Hd, Hlist. cbn [result trace] in Hd, Hlist.
    destruct (findPreviousIssues_loop_fetchFailure h source
                (h _ (AllIssuesForKey (Title source)) w).1 false []
                (h _ (AllIssuesForKey (Title source)) w).2) as [Hok _].
    destruct (findPreviousIssues_loop_requests h source
                (h _ (AllIssuesForKey (Title source)) w).1 false []
                (h _ (AllIssuesForKey (Title source)) w).2) as [_ Hall].
    rewrite Htail, Hrun. cbn [trace]. split.
    + apply Forall_app. split; [| done].
      apply Forall_cons. split; [done |].
      apply Forall_and. split; [by eapply Hok | by apply Forall_inv_tail in Hlist].
    + exists (h _ (AllIssuesForKey (Title source)) w).1,
        (trace (run h (findPreviousIssues_loop source
                         (h _ (AllIssuesForKey (Title source)) w).1 false [])
                  (h _ (AllIssuesForKey (Title source)) w).2) ++ tail).
      split; [done |].
      rewrite omap_app, Hrq, app_nil_r. by eapply Hall.
Qed.

Lemma Sync_changes_after_discovery_witness :
  Forall (fun ev => fetchFailure ev = None /\ listFailure ev = None)
    (trace (run mock (Sync NewIssueSyncer flaky) w573)).
Proof.
  apply (Sync_changes_after_discovery mock w573 NewIssueSyncer flaky).
  vm_compute. do 7 apply Exists_cons_tl. by apply Exists_cons_hd.
Defined.

(** ** Panics *)



(** ** Tokens *)

(** X11.  The synced set goes by token.  A call for one item leaves the
    tokens of all other items as they were; and after a call that returned
    success, any source with the same token, whatever its title and texts,
    is skipped without a request. *)
Theorem Sync_marks_by_token {W : Type} (h : Handler W) (w : W)
    (s s' : IssueSyncer) (a b : IssueSource) (e : option error) :
  result (run h (Sync s a) w) = Returned (s', e) ->
  (ID b <> ID a -> (ID b ∈ synced s' <-> ID b ∈ synced s)) /\
  (ID b = ID a -> e = None -> Sync s' b = Ret (s', None)).
Proof.
  intros Hr. apply Sync_result in Hr. split.
  - intros Hne. destruct e as [err|].
    + by destruct Hr as [-> _].
    + destruct Hr as [[-> _] | [-> _]]; [done |]. cbn.
      rewrite elem_of_union, elem_of_singleton. tauto.
  - intros Heq ->. unfold Sync. rewrite decide_True; [done |].
    rewrite Heq. destruct Hr as [[-> Hin] | [-> _]]; [done |].
    cbn. apply elem_of_union_l. by apply elem_of_singleton.
Qed.

Lemma Sync_marks_by_token_witness :
  Sync (markSynced NewIssueSyncer flaky) careless
  = Ret (markSynced NewIssueSyncer flaky, None).
Proof.
  apply (proj2 (Sync_marks_by_token mock w573 NewIssueSyncer
                  (markSynced NewIssueSyncer flaky) flaky careless None
                  ltac:(vm_compute; reflexivity)));
    reflexivity.
Defined.

(** ** A restarted syncer *)











(** ** Errors and failures *)

Section Failures.
Context {W : Type} (h : Handler W).

Lemma FailedWith_cons (ev : Event) (tr : list Event) (e : error) :
  failure ev = None -> FailedWith tr e -> FailedWith (ev :: tr) e.
Proof.
  intros Hev (init & ev' & err & -> & Hinit & Hf & Hw).
  exists (ev :: init), ev', err. split; [done |]. split; [by constructor | done].
Qed.

Lemma FailedWith_app (tr1 tr2 : list Event) (e : error) :
  Clean tr1 -> FailedWith tr2 e -> FailedWith (tr1 ++ tr2) e.
Proof.
  intros Hc (init & ev & err & -> & Hinit & Hf & Hw).
  exists (tr1 ++ init), ev, err. rewrite app_assoc.
  split; [done |]. split; [by apply Forall_app | done].
Qed.

Lemma findPreviousIssues_loop_failures (source : IssueSource) (l : list Z)
    (found0 : bool) (upd0 : list MungeObject) (w : W) :
  let r := run h (findPreviousIssues_loop source l found0 upd0) w in
  (Clean (trace r) /\ exists found upd, result r = Returned (found, upd, None)) \/
  (exists e, FailedWith (trace r) e /\ result r = Returned (false, [], Some e)).
Proof.
  revert found0 upd0 w. induction l as [|n l IH]; intros found0 upd0 w; cbn zeta.
  - left. split; [constructor | by exists found0, upd0].
  - rewrite findPreviousIssues_loop_cons. cbn zeta.
    destruct (h _ (GetObject n) w) as [[err|obj] w1]; cbn [fst snd].
    { right. exists (fetchError n err). split; [| done].
      exists [], (Ev (GetObject n) (inl err)), err.
      split; [done |]. split; [constructor |]. split; [done | by left]. }
    destruct (containsID (Body (MIssue obj)) _).
    { cbn zeta.
      destruct (IH true (if isOpen obj then upd0 ++ [obj] else upd0) w1)
        as [[Hc Hr] | (e & Hf & Hr)].
      - left. split; [by constructor | done].
      - right. exists e. split; [| done]. by apply FailedWith_cons. }
    destruct (h _ (ListComments obj) w1) as [[err|comments] w2]; cbn [fst snd].
    { right. exists (checkError source n (listingError obj err)). split; [| done].
      exists [Ev (GetObject n) (inr obj)], (Ev (ListComments obj) (inl err)), err.
      split; [done |]. split; [by repeat constructor |]. split; [done |].
      right. by exists (listingError obj err). }
    cbn zeta.
    destruct (IH (if commentsRecord comments (ID source) then true else found0)
                (if isOpen obj then upd0 ++ [obj] else upd0) w2)
      as [[Hc Hr] | (e & Hf & Hr)].
    + left. split; [by repeat constructor | done].
    + right. exists e. split; [| done].
      apply FailedWith_cons; [done |]. by apply FailedWith_cons.
Qed.

Lemma markAsDups_failures (dups : list MungeObject) (ofNumber : Z) (w : W) :
  let r := run h (markAsDups dups ofNumber) w in
  (Clean (trace r) /\ result r = Returned None) \/
  (exists e, FailedWith (trace r) e /\ result r = Returned (Some e)).
Proof.
  cbn zeta.
  destruct (markAsDups_run h dups ofNumber w)
    as [[Hres Htr] | (before & dup & after & err & _ & Htr & Hres)].
  - left. split; [| done]. unfold Clean. rewrite Htr.
    apply Forall_forall. intros ev Hin.
    by apply list_elem_of_fmap in Hin as (o & -> & _).
  - right. exists (closeError dup ofNumber err). split; [| done].
    exists (map (fun d => Ev (CloseIssuef d (dupMessage ofNumber)) None) before),
      (Ev (CloseIssuef dup (dupMessage ofNumber)) (Some err)), err.
    split; [done |]. split; [| split; [done | by left]].
    apply Forall_forall. intros ev Hin.
    by apply list_elem_of_fmap in Hin as (o & -> & _).
Qed.

(** A call of [Sync] either sees no failing answer and returns no error, or
    ends on the first failing answer and returns an error that wraps it. *)
Ltac clean :=
  unfold Clean in *; cbn [trace];
  repeat (apply Forall_app; split); try done; by repeat constructor.

Lemma Sync_failures (s : IssueSyncer) (source : IssueSource) (w : W) :
  let r := run h (Sync s source) w in
  (Clean (trace r) /\ forall s' e, result r <> Returned (s', Some e)) \/
  (exists e, FailedWith (trace r) e /\ result r = Returned (s, Some e)).
Proof.
  cbn zeta. destruct (decide (ID source ∈ synced s)) as [Hs|Hnot].
  { left. unfold Sync. rewrite decide_True by done. split; [constructor | done]. }
  rewrite Sync_run by done. cbn zeta.
  pose proof (findPreviousIssues_run h source w) as Hrun. cbn zeta in Hrun.
  destruct (findPreviousIssues_loop_failures source
              (h _ (AllIssuesForKey (Title source)) w).1 false []
              (h _ (AllIssuesForKey (Title source)) w).2)
    as [[Hcl (found & upd & Hr)] | (e & Hf & Hr)].
  2:{ right. exists e. rewrite Hrun. cbn [result trace final]. rewrite Hr.
      split; [| done]. by apply FailedWith_cons. }
  assert (Clean (trace (run h (findPreviousIssues source) w))) as Hd
    by (unfold Clean; rewrite Hrun; by constructor).
  assert (result (run h (findPreviousIssues source) w) = Returned (found, upd, None))
    as Hrd by (by rewrite Hrun).
  rewrite Hrd. clear Hrun Hcl Hr.
  set (d := run h (findPreviousIssues source) w) in *.
  assert ((Clean (trace (run h (closeDups upd) (final d))) /\
           result (run h (closeDups upd) (final d)) = Returned None) \/
          (exists e, FailedWith (trace (run h (closeDups upd) (final d))) e /\
                     result (run h (closeDups upd) (final d)) = Returned (Some e)))
    as [[Hc Hrc] | (e & Hf & Hrc)].
  { rewrite closeDups_unfold. destruct upd as [|kept [|dup dups]].
    - left. split; [constructor | done].
    - left. split; [constructor | done].
    - apply markAsDups_failures. }
  2:{ right. exists e. rewrite Hrc. split; [| done]. by apply FailedWith_app. }
  unfold Clean in Hd, Hc.
  rewrite Hrc. set (c := run h (closeDups upd) (final d)) in *.
  destruct found.
  { left. split; [clean | done]. }
  destruct upd as [|obj rest].
  - rewrite createIssue_run.
    destruct (strings.Contains (SourceBody source true) (ID source)).
    2:{ left. cbn [trace result]. split; [clean | done]. }
    cbn zeta. destruct (h _ (NewIssue _ _ _) (final c)) as [[err|o] w1]; cbn [fst snd].
    + right. exists (createError err). cbn [result trace]. split; [| done].
      rewrite app_assoc. apply FailedWith_app; [clean |].
      exists [], (Ev (NewIssue (Title source) (SourceBody source true) (Labels source))
                    (inl err)), err.
      split; [done |]. split; [constructor |]. split; [done | by left].
    + destruct (h _ (Infof _) w1) as [[] w2]. cbn [fst snd result trace final].
      destruct (h _ (Created _ _) w2) as [[] w3]. cbn [fst snd result trace].
      left. split; [clean | done].
  - rewrite updateIssue_run.
    destruct (strings.Contains (SourceBody source false) (ID source)).
    2:{ left. cbn [trace result]. split; [clean | done]. }
    cbn zeta. destruct (h _ (Infof _) (final c)) as [[] w1]. cbn [fst snd].
    destruct (h _ (WriteComment _ _) w1) as [[err|] w2]; cbn [fst snd result trace].
    + right. exists (updateError obj source err). split; [| done].
      rewrite app_assoc. apply FailedWith_app; [clean |].
      exists [Ev (Infof (updateLog obj source)) ()],
        (Ev (WriteComment obj (SourceBody source false)) (Some err)), err.
      split; [done |]. split; [by repeat constructor |]. split; [done | by left].
    + left. split; [clean | done].
Qed.

End Failures.

(** X12.  [Sync] returns an error exactly when a collaborator has failed,
    and it stops there.  A failing answer to a fetch, a listing, a close, a
    comment or a creation is the last request of the call, no request before
    it has failed, and the call returns an error that wraps the failure and
    leaves the syncer as it was; and a call that returns an error has ended
    on such a failing answer.  Nothing is retried and no failure is
    swallowed. *)
Theorem Sync_error_is_last_failure {W : Type} (h : Handler W) (w : W)
    (s : IssueSyncer) (source : IssueSource) :
  let r := run h (Sync s source) w in
  (forall ev, ev ∈ trace r -> is_Some (failure ev) ->
     exists init err e,
       trace r = init ++ [ev] /\ Forall (fun ev' => failure ev' = None) init /\
       failure ev = Some err /\ result r = Returned (s, Some e) /\ wraps e err) /\
  (forall s' e, result r = Returned (s', Some e) ->
     exists ev, last (trace r) = Some ev /\ is_Some (failure ev)).
Proof.
  cbn zeta.
  destruct (Sync_failures h s source w)
    as [[Hc Hno] | (e & (init & ev & err & Htr & Hinit & Hf & Hw) & Hr)].
  - split.
    + intros ev Hin [err Hev]. unfold Clean in Hc. rewrite Forall_forall in Hc.
      rewrite (Hc ev Hin) in Hev. discriminate Hev.
    + intros s' e Hr. by apply Hno in Hr.
  - split.
    + intros ev' Hin [err' Hev]. rewrite Htr in Hin.
      apply elem_of_app in Hin as [Hin | Hin].
      * rewrite Forall_forall in Hinit. rewrite (Hinit ev' Hin) in Hev. discriminate Hev.
      * apply list_elem_of_singleton in Hin as ->. by exists init, err, e.
    + intros s' e' _. exists ev. rewrite Htr, last_snoc. split; [done | by eexists].
Qed.

Lemma Sync_error_is_last_failure_witness :
  exists ev,
    last (trace (run mock (Sync NewIssueSyncer flaky)
                   (withFaults w573 [None; None; None; None; None; None; Some boom])))
    = Some ev /\ is_Some (failure ev).
Proof.
  apply (proj2 (Sync_error_is_last_failure mock
                  (withFaults w573 [None; None; None; None; None; None; Some boom])
                  NewIssueSyncer flaky)
           NewIssueSyncer (closeError (snapshot 7 (openIssue "b")) 5 boom)).
  vm_compute. reflexivity.
Defined.

(** ** The issues a call touches *)

Section Targets.
Context {W : Type} (h : Handler W).

Lemma markAsDups_targets (dups : list MungeObject) (ofNumber : Z) (w : W) :
  Forall (fun ev => forall obj, target ev = Some obj -> obj ∈ dups)
    (trace (run h (markAsDups dups ofNumber) w)).
Proof.
  destruct (markAsDups_run h dups ofNumber w)
    as [[_ ->] | (before & dup & after & err & -> & -> & _)].
  - apply Forall_forall. intros ev Hin obj Ht.
    apply list_elem_of_fmap in Hin as (o & -> & Ho). by injection Ht as <-.
  - apply Forall_app. split.
    + apply Forall_forall. intros ev Hin obj Ht.
      apply list_elem_of_fmap in Hin as (o & -> & Ho). injection Ht as <-.
      apply elem_of_app. by left.
    + constructor; [| constructor]. intros obj [= <-].
      apply elem_of_app. right. apply list_elem_of_here.
Qed.

Lemma closeDups_targets (updatable : list MungeObject) (w : W) :
  Forall (fun ev => forall obj, target ev = Some obj -> obj ∈ updatable)
    (trace (run h (closeDups updatable) w)).
Proof.
  rewrite closeDups_unfold. destruct updatable as [|kept [|dup dups]]; [constructor.. |].
  eapply Forall_impl; [apply markAsDups_targets |].
  intros ev Hev obj Ht. apply list_elem_of_further. by apply Hev.
Qed.

End Targets.

(** X13.  [Sync] closes and comments on nothing but what it has fetched in
    the same call and seen open: the issue of every close and of every
    comment is one of the open issues that discovery fetched. *)
Theorem Sync_touches_only_fetched_open {W : Type} (h : Handler W) (w : W)
    (s : IssueSyncer) (source : IssueSource) :
  let r := run h (Sync s source) w in
  Forall (fun ev => forall obj, target ev = Some obj ->
                                obj ∈ List.filter isOpen (omap fetched (trace r)))
    (trace r).
Proof.
  cbn zeta. destruct (decide (ID source ∈ synced s)) as [Hs|Hnot].
  { unfold Sync. rewrite decide_True by done. constructor. }
  destruct (Sync_tail h s source w Hnot) as (tail & Htail & Hact & _).
  destruct (tail_silent "" tail Hact) as (Hft & _).
  assert (omap fetched (trace (run h (Sync s source) w))
          = omap fetched (trace (run h (findPreviousIssues source) w))) as Heq
    by (by rewrite Htail, omap_app, Hft, app_nil_r).
  clear Htail Hact Hft tail.
  cut (Forall (fun ev => forall obj, target ev = Some obj ->
                 obj ∈ List.filter isOpen
                       (omap fetched (trace (run h (findPreviousIssues source) w))))
         (trace (run h (Sync s source) w))).
  { intros Hall. eapply Forall_impl; [exact Hall |]. cbn beta.
    intros ev Hev obj Ht. rewrite Heq. by apply Hev. }
  clear Heq.
  assert (Forall (fun ev => forall obj, target ev = Some obj ->
                   obj ∈ List.filter isOpen
                         (omap fetched (trace (run h (findPreviousIssues source) w))))
            (trace (run h (findPreviousIssues source) w))) as Hdt.
  { eapply Forall_impl; [apply findPreviousIssues_reading |].
    intros [X []] Hev o Ht; done. }
  rewrite Sync_run by done. cbn zeta.
  destruct (result (run h (findPreviousIssues source) w))
    as [[[found upd] [err|]]|v] eqn:Hd; [done | | done].
  pose proof (findPreviousIssues_ok h source w found upd Hd) as [Hu _].
  rewrite <- Hu in *.
  pose proof (closeDups_targets h upd (final (run h (findPreviousIssues source) w)))
    as Hct.
  destruct (result (run h (closeDups upd) _)) as [[err|]|v]; cbn [trace];
    [by apply Forall_app.. | | by apply Forall_app].
  destruct found; cbn [trace]; [by apply Forall_app |].
  destruct upd as [|obj rest].
  - rewrite createIssue_run.
    destruct (strings.Contains _ _); cbn zeta.
    + destruct (h _ (NewIssue _ _ _) _) as [[err|o] w1]; cbn [fst snd result trace final].
      * repeat (apply Forall_app; split); try done; try (by repeat constructor).
      * destruct (h _ (Infof _) _) as [[] w2]. cbn [fst snd result trace final].
        repeat (apply Forall_app; split); try done; try (by repeat constructor).
    + cbn [trace result].
      repeat (apply Forall_app; split); try done; try (by repeat constructor).
  - rewrite updateIssue_run.
    destruct (strings.Contains _ _); cbn zeta; cbn [trace].
    + repeat (apply Forall_app; split); try done.
      constructor; [done |]. constructor; [| constructor].
      intros o [= <-]. apply list_elem_of_here.
    + repeat (apply Forall_app; split); try done; try (by repeat constructor).
Qed.

Lemma Sync_touches_only_fetched_open_witness :
  snapshot 7 (openIssue "b")
  ∈ List.filter isOpen (omap fetched (trace (run mock (Sync NewIssueSyncer flaky) w573))).
Proof.
  pose proof (Sync_touches_only_fetched_open mock w573 NewIssueSyncer flaky) as Hall.
  cbn zeta in Hall. rewrite Forall_forall in Hall.
  apply (Hall (Ev (CloseIssuef (snapshot 7 (openIssue "b"))
                     "This is a duplicate of #5; closing") None)).
  - vm_compute. do 7 apply list_elem_of_further. apply list_elem_of_here.
  - reflexivity.
Defined.

Lemma Sync_lists_only_after_body_witness :
  containsID (Body (MIssue (snapshot 5 (openIssue "a")))) (ID flaky) = false.
Proof.
  pose proof (Sync_lists_only_after_body mock w573 NewIssueSyncer flaky) as Hall.
  rewrite Forall_forall in Hall.
  apply (Hall (Ev (ListComments (snapshot 5 (openIssue "a"))) (inr []))).
  - vm_compute. do 2 apply list_elem_of_further. apply list_elem_of_here.
  - reflexivity.
Defined.
